(** * Fusion ensembles (torchensemble/fusion.py) over the real numbers

    A shallow embedding of [FusionClassifier] and [FusionRegressor].
    Tensors are two-dimensional (a batch of rows) with real entries; the
    numeric library's operations are modelled exactly over [R], with the
    broadcasting rules of in-place addition, [eq] and [MSELoss] written out,
    except where the float format shows: the mean squared error over an
    empty shape is nan, and the classifier's count of matches is a float32
    value, rounded to 24 significant bits.
    The ensemble is mutable state: [fit] and [predict] run in a state and
    error monad whose state is kept when an exception is raised, as Python
    keeps the mutations done before a [raise]. *)

From Stdlib Require Import Reals Lra Lia Arith Bool ZArith.
From Stdlib Require Import String List Permutation.
Import ListNotations.

Open Scope R_scope.

(** ** Exceptions *)

Inductive PyError :=
| ValueError            (* _validate_parameters *)
| ZeroDivisionError     (* Python float division by 0 *)
| ShapeError            (* shape mismatch in the numeric library *)
| AttributeError        (* n_outputs read before it is set *)
| UnsupportedOptimizer  (* set_optimizer on an unknown kind *)
| RuntimeError.         (* reading the classes of an empty loader *)

(** ** Tensors *)

(** A [rows] x [cols] tensor; [entry] is read only inside the shape. *)
Record Tensor := mkTensor { rows : nat; cols : nat; entry : nat -> nat -> R }.

(** [torch.zeros(r, c)] *)
Definition zeros (r c : nat) : Tensor := mkTensor r c (fun _ _ => 0).

(** A dimension of size [a] broadcasts to size [b]. *)
Definition bcast_to (a b : nat) : bool := Nat.eqb a b || Nat.eqb a 1.

(** Index into a broadcast dimension of size [dim]. *)
Definition bidx (dim i : nat) : nat := if Nat.eqb dim 1 then 0 else i.

(** Common shape of two broadcast dimensions. *)
Definition bdim (a b : nat) : option nat :=
  if Nat.eqb a b then Some a
  else if Nat.eqb a 1 then Some b
  else if Nat.eqb b 1 then Some a
  else None.

(** [p += o]: in place, so [o] must broadcast to the shape of [p]. *)
Definition iadd (p o : Tensor) : PyError + Tensor :=
  if bcast_to (rows o) (rows p) && bcast_to (cols o) (cols p) then
    inr (mkTensor (rows p) (cols p)
           (fun i j => entry p i j + entry o (bidx (rows o) i) (bidx (cols o) j)))
  else inl ShapeError.

(** [o / k] for a Python int [k]. *)
Definition tdiv (o : Tensor) (k : nat) : Tensor :=
  mkTensor (rows o) (cols o) (fun i j => entry o i j / INR k).

(** Sum of [f 0 .. f (n-1)]. *)
Fixpoint sum_upto (f : nat -> R) (n : nat) : R :=
  match n with
  | O => 0
  | S k => sum_upto f k + f k
  end.

(** [F.softmax(t, dim=1)]: each row normalised by the sum of its exponentials
    (torch subtracts the row maximum first, which over [R] changes nothing). *)
Definition softmax_rows (t : Tensor) : Tensor :=
  mkTensor (rows t) (cols t)
    (fun i j => exp (entry t i j) / sum_upto (fun k => exp (entry t i k)) (cols t)).

(** Index of the first maximal value of a row of width [n]. *)
Definition row_argmax (f : nat -> R) (n : nat) : nat :=
  fold_left (fun best c => if Rlt_dec (f best) (f c) then c else best)
            (seq 1 (n - 1)) 0%nat.

(** [t.max(1)[1]]: the arg-max of every row (an empty row cannot be reduced). *)
Definition argmax_rows (t : Tensor) : PyError + list nat :=
  if Nat.eqb (cols t) 0 && negb (Nat.eqb (rows t) 0) then inl ShapeError
  else inr (map (fun i => row_argmax (entry t i) (cols t)) (seq 0 (rows t))).

(** [pred.eq(target.view(-1)).sum()] with broadcasting of the two vectors. *)
Definition count_eq (pred tgt : list nat) : PyError + nat :=
  match bdim (length pred) (length tgt) with
  | None => inl ShapeError
  | Some n =>
      inr (length (filter (fun i => Nat.eqb (nth (bidx (length pred) i) pred 0%nat)
                                            (nth (bidx (length tgt) i) tgt 0%nat))
                          (seq 0 n)))
  end.

(** A floating-point result: a number or nan. *)
Inductive PyFloat := Num (x : R) | NaN.

(** [a + b] on floats: nan absorbs. *)
Definition fadd (a b : PyFloat) : PyFloat :=
  match a, b with
  | Num x, Num y => Num (x + y)
  | _, _ => NaN
  end.

(** [a / k] for a positive Python int [k]. *)
Definition fdiv (a : PyFloat) (k : nat) : PyFloat :=
  match a with
  | Num x => Num (x / INR k)
  | NaN => NaN
  end.

(** [nn.MSELoss()(o, t)]: the mean of the squared differences over the
    broadcast shape; the mean over an empty shape (no rows or no columns)
    is nan. *)
Definition mse_loss (o t : Tensor) : PyError + PyFloat :=
  match bdim (rows o) (rows t), bdim (cols o) (cols t) with
  | Some r, Some c =>
      if Nat.eqb (r * c) 0 then inr NaN
      else inr (Num (sum_upto (fun i => sum_upto (fun j =>
                      Rsqr (entry o (bidx (rows o) i) (bidx (cols o) j)
                            - entry t (bidx (rows t) i) (bidx (cols t) j))) c) r
                    / INR (r * c)))
  | _, _ => inl ShapeError
  end.

(** [nn.CrossEntropyLoss()(o, target)]: the mean over rows of the negative
    log-softmax at the target class (a DataLoader never yields a batch of
    no rows). *)
Definition cross_entropy (o : Tensor) (tgt : list nat) : PyError + R :=
  if negb (Nat.eqb (length tgt) (rows o)) then inl ShapeError
  else if existsb (fun k => Nat.leb (cols o) k) tgt then inl ShapeError
  else inr (- sum_upto (fun i => ln (entry (softmax_rows o) i (nth i tgt 0%nat))) (rows o)
            / INR (rows o)).

(** ** The ensemble *)

(** A base estimator: an identity (a fresh object per factory call) and its
    forward function, which may depend on the train/eval mode flag. *)
Record Estimator := mkEstimator {
  est_id : nat;
  est_apply : bool -> Tensor -> Tensor
}.

(** The attributes of a [BaseModule] that fusion.py reads or writes. *)
Record Ensemble := mkEnsemble {
  n_estimators : nat;
  n_outputs : option nat;
  estimators_ : list Estimator;
  device : string;
  training : bool
}.

(** Modelled from the spec: [BaseModule.__init__] (not in this file set):
    [n_estimators] and [device] are fixed, the estimator collection is empty,
    [n_outputs] is not set yet. *)
Definition init_ensemble (n : nat) (dev : string) : Ensemble :=
  mkEnsemble n None [] dev true.

(** The averaging loop [for estimator in self.estimators_:
    proba += estimator(X) / self.n_estimators]. *)
Fixpoint avg_loop (e : Ensemble) (X : Tensor) (ests : list Estimator) (acc : Tensor)
  : PyError + Tensor :=
  match ests with
  | [] => inr acc
  | est :: rest =>
      match iadd acc (tdiv (est_apply est (training e) X) (n_estimators e)) with
      | inl err => inl err
      | inr acc' => avg_loop e X rest acc'
      end
  end.

(** ** Data loaders *)

(** A [DataLoader]: the batches it yields, in order, and the length of its
    dataset ([len(loader.dataset)]); [len(loader)] is its number of batches. *)
Record Loader (T : Type) := mkLoader {
  batches : list (Tensor * T);
  dataset_len : nat
}.
Arguments mkLoader {T}.
Arguments batches {T}.
Arguments dataset_len {T}.

(** ** The state and error monad *)

(** A line printed by [fit]: epoch, batch index, loss and, for the
    classifier, [(correct, batch_size)]. *)
Record LogLine := mkLogLine {
  log_epoch : nat;
  log_batch : nat;
  log_loss : PyFloat;
  log_correct : option (nat * nat)
}.

(** Everything a call can change: the ensemble, the number of instances the
    estimator factory has returned so far, and what was printed. *)
Record World := mkWorld {
  ens : Ensemble;
  made : nat;
  stdout : list LogLine
}.

(** A computation returns a value or raises; the world it leaves behind is
    kept in both cases. *)
Definition M (A : Type) : Type := World -> (PyError + A) * World.

Definition ret {A} (a : A) : M A := fun w => (inr a, w).

Definition bind {A B} (m : M A) (k : A -> M B) : M B :=
  fun w => match m w with
           | (inl err, w') => (inl err, w')
           | (inr a, w') => k a w'
           end.

Notation "x <- c1 ;; c2" := (bind c1 (fun x => c2))
  (at level 61, c1 at next level, right associativity).
Notation "c1 ;; c2" := (bind c1 (fun _ => c2)) (at level 61, right associativity).

Definition raise {A} (err : PyError) : M A := fun w => (inl err, w).

(** A pure step that may raise. *)
Definition lift {A} (r : PyError + A) : M A := fun w => (r, w).

Definition get_ens : M Ensemble := fun w => (inr (ens w), w).

Definition modify_ens (f : Ensemble -> Ensemble) : M unit :=
  fun w => (inr tt, mkWorld (f (ens w)) (made w) (stdout w)).

Definition print (l : LogLine) : M unit :=
  fun w => (inr tt, mkWorld (ens w) (made w) (stdout w ++ [l])).

Definition set_training (b : bool) : Ensemble -> Ensemble :=
  fun e => mkEnsemble (n_estimators e) (n_outputs e) (estimators_ e) (device e) b.

Definition set_n_outputs (n : nat) : Ensemble -> Ensemble :=
  fun e => mkEnsemble (n_estimators e) (Some n) (estimators_ e) (device e) (training e).

Definition set_estimators (l : list Estimator) : Ensemble -> Ensemble :=
  fun e => mkEnsemble (n_estimators e) (n_outputs e) l (device e) (training e).

(** [self.train()] and [self.eval()]. *)
Definition train : M unit := modify_ens (set_training true).
Definition eval : M unit := modify_ens (set_training false).

(** [for batch_idx, (data, target) in enumerate(loader): body]. *)
Fixpoint for_batches {T} (body : nat -> Tensor -> T -> M unit) (idx : nat)
         (bs : list (Tensor * T)) : M unit :=
  match bs with
  | [] => ret tt
  | (d, t) :: rest => body idx d t ;; for_batches body (S idx) rest
  end.

(** [for epoch in range(start, start + count): body]. *)
Fixpoint for_range (body : nat -> M unit) (start count : nat) : M unit :=
  match count with
  | O => ret tt
  | S c => body start ;; for_range body (S start) c
  end.

(** A loop accumulating a value over the batches. *)
Fixpoint fold_batches {T A} (body : A -> Tensor -> T -> M A) (acc : A)
         (bs : list (Tensor * T)) : M A :=
  match bs with
  | [] => ret acc
  | (d, t) :: rest => acc' <- body acc d t ;; fold_batches body acc' rest
  end.

(** ** Collaborators outside fusion.py *)

(** The optimizer bound by [set_optimizer]. *)
Record Optimizer := mkOptimizer { opt_kind : string; opt_lr : R; opt_weight_decay : R }.

(** What the caller and the numeric library supply: the estimator factory
    (the forward function of the [k]-th instance it returns) and the parameter
    update done by [zero_grad(); loss.backward(); step()] on one batch, which
    gives the new forward function of the [i]-th estimator. *)
Record Env := mkEnv {
  make_fn : nat -> bool -> Tensor -> Tensor;
  cls_update : Optimizer -> list Estimator -> Tensor -> list nat -> nat -> bool -> Tensor -> Tensor;
  reg_update : Optimizer -> list Estimator -> Tensor -> Tensor -> nat -> bool -> Tensor -> Tensor
}.

(** [self._make_estimator()]: one call of the factory, a fresh instance. *)
Definition _make_estimator (env : Env) : M Estimator :=
  fun w => (inr (mkEstimator (made w) (make_fn env (made w))),
            mkWorld (ens w) (S (made w)) (stdout w)).

(** [for _ in range(self.n_estimators):
        self.estimators_.append(self._make_estimator())]. *)
Fixpoint append_estimators (env : Env) (k : nat) : M unit :=
  match k with
  | O => ret tt
  | S k' =>
      est <- _make_estimator env ;;
      modify_ens (fun e => set_estimators (estimators_ e ++ [est]) e) ;;
      append_estimators env k'
  end.

(** Modelled from the spec: [BaseModule._decide_n_outputs] (not in this file
    set), classification: the number of distinct label classes of the
    training data; an empty loader has none to read. *)
Definition decide_n_outputs_cls (L : Loader (list nat)) : PyError + nat :=
  match batches L with
  | [] => inl RuntimeError
  | _ => inr (length (nodup Nat.eq_dec (concat (map snd (batches L)))))
  end.

(** Modelled from the spec: [BaseModule._decide_n_outputs] (not in this file
    set), regression: the width of the target of the first batch. *)
Definition decide_n_outputs_reg (L : Loader Tensor) : PyError + nat :=
  match batches L with
  | [] => inl RuntimeError
  | (_, t) :: _ => inr (cols t)
  end.

(** Modelled from the spec: [utils.set_optimizer] (not in this file set):
    binds an optimizer of one of the supported kinds, and fails on any other;
    the library's SGD, Adam and RMSprop constructors reject a negative [lr]
    or [weight_decay] with ValueError. *)
Definition set_optimizer (kind : string) (lr wd : R) : PyError + Optimizer :=
  if negb (existsb (String.eqb kind) ["SGD"; "Adam"; "RMSprop"]%string)
  then inl UnsupportedOptimizer
  else if Rlt_dec lr 0 then inl ValueError
  else if Rlt_dec wd 0 then inl ValueError
  else inr (mkOptimizer kind lr wd).

(** Modelled from the spec: [BaseModule._validate_parameters] (not in this
    file set): raises on the first of [lr <= 0], [weight_decay < 0],
    [epochs <= 0], [log_interval <= 0]. *)
Definition _validate_parameters (lr wd : R) (epochs log_interval : Z) : PyError + unit :=
  if Rle_dec lr 0 then inl ValueError
  else if Rlt_dec wd 0 then inl ValueError
  else if (epochs <=? 0)%Z then inl ValueError
  else if (log_interval <=? 0)%Z then inl ValueError
  else inr tt.

(** The estimators after one optimizer step: the same objects, each with
    its parameters updated. *)
Definition step_estimators (upd : nat -> bool -> Tensor -> Tensor)
           (ests : list Estimator) : list Estimator :=
  map (fun '(i, est) => mkEstimator (est_id est) (upd i))
      (combine (seq 0 (length ests)) ests).

(** Rounding of a non-negative integer to the nearest float32 (a 24-bit
    significand, ties to even); the counts stay far below the float32
    overflow threshold [2^128]. *)
Definition fl32_int (z : Z) : Z :=
  let e := (Z.log2 z - 23)%Z in
  if (e <=? 0)%Z then z
  else
    let q := (z / 2 ^ e)%Z in
    let r := (z mod 2 ^ e)%Z in
    let half := (2 ^ (e - 1))%Z in
    if (r <? half)%Z then (q * 2 ^ e)%Z
    else if (half <? r)%Z then ((q + 1) * 2 ^ e)%Z
    else if Z.even q then (q * 2 ^ e)%Z
    else ((q + 1) * 2 ^ e)%Z.

(** [correct += c] for a float32 tensor [correct] and an int64 count [c]:
    the count is converted to float32 and the sum rounded to float32. *)
Definition fl32_add (correct : Z) (c : nat) : Z :=
  fl32_int (correct + fl32_int (Z.of_nat c)).

(** [batch_idx % log_interval == 0] (Python's modulo). *)
Definition log_due (batch_idx : nat) (log_interval : Z) : bool :=
  (Z.of_nat batch_idx mod log_interval =? 0)%Z.

Module FusionClassifier.

(** [FusionClassifier._forward]. *)
Definition _forward (e : Ensemble) (X : Tensor) : PyError + Tensor :=
  match n_outputs e with
  | None => inl AttributeError
  | Some n => avg_loop e X (estimators_ e) (zeros (rows X) n)
  end.

(** [FusionClassifier.forward]. *)
Definition forward (e : Ensemble) (X : Tensor) : PyError + Tensor :=
  match _forward e X with
  | inl err => inl err
  | inr proba => inr (softmax_rows proba)
  end.

(** One iteration of the training loop of [FusionClassifier.fit]. *)
Definition train_batch (env : Env) (opt : Optimizer) (log_interval : Z) (epoch : nat)
           (batch_idx : nat) (data : Tensor) (target : list nat) : M unit :=
  let batch_size := rows data in
  e <- get_ens ;;
  output <- lift (_forward e data) ;;
  loss <- lift (cross_entropy output target) ;;
  modify_ens (fun e =>
    set_estimators
      (step_estimators (cls_update env opt (estimators_ e) data target) (estimators_ e)) e) ;;
  if log_due batch_idx log_interval then
    pred <- lift (argmax_rows output) ;;
    correct <- lift (count_eq pred target) ;;
    print (mkLogLine epoch batch_idx (Num loss) (Some (correct, batch_size)))
  else ret tt.

(** [FusionClassifier.fit]. *)
Definition fit (env : Env) (train_loader : Loader (list nat)) (lr weight_decay : R)
           (epochs : Z) (optimizer : string) (log_interval : Z) : M unit :=
  e0 <- get_ens ;;
  append_estimators env (n_estimators e0) ;;
  n <- lift (decide_n_outputs_cls train_loader) ;;
  modify_ens (set_n_outputs n) ;;
  opt <- lift (set_optimizer optimizer lr weight_decay) ;;
  train ;;
  lift (_validate_parameters lr weight_decay epochs log_interval) ;;
  for_range (fun epoch =>
               for_batches (train_batch env opt log_interval epoch) 0
                           (batches train_loader))
            0 (Z.to_nat epochs).

(** One iteration of the loop of [FusionClassifier.predict]: [correct]
    starts as the float [0.] and becomes a float32 tensor on the first
    [+=]. *)
Definition predict_batch (correct : Z) (data : Tensor) (target : list nat) : M Z :=
  e <- get_ens ;;
  output <- lift (forward e data) ;;
  pred <- lift (argmax_rows output) ;;
  c <- lift (count_eq pred target) ;;
  ret (fl32_add correct c).

(** [FusionClassifier.predict]: [100. * float(correct) / len(test_loader.dataset)]. *)
Definition predict (test_loader : Loader (list nat)) : M R :=
  eval ;;
  correct <- fold_batches predict_batch 0%Z (batches test_loader) ;;
  if Nat.eqb (dataset_len test_loader) 0 then raise ZeroDivisionError
  else ret (100 * IZR correct / INR (dataset_len test_loader)).

End FusionClassifier.

Module FusionRegressor.

(** [FusionRegressor.forward]. *)
Definition forward (e : Ensemble) (X : Tensor) : PyError + Tensor :=
  match n_outputs e with
  | None => inl AttributeError
  | Some n => avg_loop e X (estimators_ e) (zeros (rows X) n)
  end.

(** One iteration of the training loop of [FusionRegressor.fit]. *)
Definition train_batch (env : Env) (opt : Optimizer) (log_interval : Z) (epoch : nat)
           (batch_idx : nat) (data : Tensor) (target : Tensor) : M unit :=
  e <- get_ens ;;
  output <- lift (forward e data) ;;
  loss <- lift (mse_loss output target) ;;
  modify_ens (fun e =>
    set_estimators
      (step_estimators (reg_update env opt (estimators_ e) data target) (estimators_ e)) e) ;;
  if log_due batch_idx log_interval then
    print (mkLogLine epoch batch_idx loss None)
  else ret tt.

(** [FusionRegressor.fit]. *)
Definition fit (env : Env) (train_loader : Loader Tensor) (lr weight_decay : R)
           (epochs : Z) (optimizer : string) (log_interval : Z) : M unit :=
  e0 <- get_ens ;;
  append_estimators env (n_estimators e0) ;;
  n <- lift (decide_n_outputs_reg train_loader) ;;
  modify_ens (set_n_outputs n) ;;
  opt <- lift (set_optimizer optimizer lr weight_decay) ;;
  train ;;
  lift (_validate_parameters lr weight_decay epochs log_interval) ;;
  for_range (fun epoch =>
               for_batches (train_batch env opt log_interval epoch) 0
                           (batches train_loader))
            0 (Z.to_nat epochs).

(** One iteration of the loop of [FusionRegressor.predict]. *)
Definition predict_batch (mse : PyFloat) (data : Tensor) (target : Tensor) : M PyFloat :=
  e <- get_ens ;;
  output <- lift (forward e data) ;;
  l <- lift (mse_loss output target) ;;
  ret (fadd mse l).

(** [FusionRegressor.predict]: [mse / len(test_loader)], where [mse] is the
    float [0.] when the loader yields no batch. *)
Definition predict (test_loader : Loader Tensor) : M PyFloat :=
  eval ;;
  mse <- fold_batches predict_batch (Num 0) (batches test_loader) ;;
  if Nat.eqb (length (batches test_loader)) 0 then raise ZeroDivisionError
  else ret (fdiv mse (length (batches test_loader))).

End FusionRegressor.

(** ** Sample inputs *)

(** A factory whose instances answer one column of zeros, and an optimizer
    step that leaves every estimator as it is. *)
Definition demo_env : Env :=
  mkEnv (fun _ _ X => zeros (rows X) 1)
        (fun _ ests _ _ i => est_apply (nth i ests (mkEstimator 0 (fun _ X => X))))
        (fun _ ests _ _ i => est_apply (nth i ests (mkEstimator 0 (fun _ X => X)))).

(** One batch of one example of class 0; one batch of one regression target. *)
Definition demo_cls_loader : Loader (list nat) := mkLoader [(zeros 1 1, [0%nat])] 1.
Definition demo_reg_loader : Loader Tensor := mkLoader [(zeros 1 1, zeros 1 1)] 1.

(** Sum of a list of reals. *)
Definition sumR (l : list R) : R := fold_right Rplus 0 l.

(** Sequencing of two steps that may raise. *)
Definition sum_bind {A B} (r : PyError + A) (k : A -> PyError + B) : PyError + B :=
  match r with
  | inl err => inl err
  | inr a => k a
  end.

(** The scenario of three estimators that all answer [[1, 0]] on every row. *)
Definition onehot0 (j : nat) : R := if Nat.eqb j 0 then 1 else 0.

Definition const_estimator (k : nat) (width : nat) (v : nat -> R) : Estimator :=
  mkEstimator k (fun _ X => mkTensor (rows X) width (fun _ j => v j)).

Definition demo_ensemble : Ensemble :=
  mkEnsemble 3 (Some 2%nat)
    [const_estimator 0 2 onehot0; const_estimator 1 2 onehot0; const_estimator 2 2 onehot0]
    "cpu" false.

(** The regression scenario: two estimators answering [2] and [4], a target
    of [3]. *)
Definition demo_reg_ensemble : Ensemble :=
  mkEnsemble 2 (Some 1%nat)
    [const_estimator 0 1 (fun _ => 2); const_estimator 1 1 (fun _ => 4)] "cpu" true.

Definition demo_reg_test : Loader Tensor :=
  mkLoader [(zeros 1 1, mkTensor 1 1 (fun _ _ => 3))] 1.

(** A one-estimator classifier over one class, and the loader of a
    [DataLoader(dataset of 3, batch_size=2, drop_last=True)]: one batch of
    two examples of class 0, the third example dropped. *)
Definition demo_cls_one : Ensemble :=
  mkEnsemble 1 (Some 1%nat) [const_estimator 0 1 (fun _ => 0)] "cpu" false.

Definition drop_last_loader : Loader (list nat) := mkLoader [(zeros 2 1, [0%nat; 0%nat])] 3.

(** A fresh ensemble of two, before its first [fit]. *)
Definition demo_world : World := mkWorld (mkEnsemble 2 None [] "cpu" true) 0 [].

(** ** Observations of the world *)

(** [m] leaves the observation [f] of the world unchanged, whatever its outcome. *)
Definition keeps {A B} (f : World -> B) (m : M A) : Prop :=
  forall w, f (snd (m w)) = f w.

(** What no step of [fit] or [predict] changes: the configuration of the
    ensemble. *)
Definition config (w : World) : nat * string :=
  (n_estimators (ens w), device (ens w)).

(** The world after [self.eval()]. *)
Definition eval_world (w : World) : World := snd (eval w).

(** [m] reads the ensemble and nothing else, and changes no part of the world. *)
Definition ens_only {A} (m : M A) : Prop :=
  forall w1 w2, ens w1 = ens w2 -> m w1 = (fst (m w2), w1).

(** The instances the factory returns on its calls [m], ..., [m + k - 1]. *)
Definition fresh_estimators (env : Env) (m k : nat) : list Estimator :=
  map (fun i => mkEstimator i (make_fn env i)) (seq m k).

(** The identities of the held estimators and the number of factory calls. *)
Definition ids (w : World) : list nat * nat :=
  (map est_id (estimators_ (ens w)), made w).

(** The epoch and batch index a status line reports. *)
Definition log_key (l : LogLine) : nat * nat := (log_epoch l, log_batch l).

(** The status lines of a complete training loop over [nb] batches: for
    every epoch in turn, one per [batch_idx] with
    [batch_idx % log_interval == 0]. *)
Definition log_schedule (epochs nb : nat) (log_interval : Z) : list (nat * nat) :=
  flat_map (fun ep => flat_map (fun i => if log_due i log_interval then [(ep, i)] else [])
                                (seq 0 nb))
           (seq 0 epochs).

(** [m] only appends to stdout; what it appends reports a prefix of [s],
    and all of [s] when [m] returns normally. *)
Definition prints_sched {A} (s : list (nat * nat)) (m : M A) : Prop :=
  forall w, exists new : list LogLine, stdout (snd (m w)) = stdout w ++ new /\
    (exists rest, map log_key new ++ rest = s) /\
    (forall a, fst (m w) = inr a -> map log_key new = s).

(** [m] only appends to stdout, and only lines satisfying [P]. *)
Definition prints_only {A} (P : LogLine -> Prop) (m : M A) : Prop :=
  forall w, exists new : list LogLine, stdout (snd (m w)) = stdout w ++ new /\ Forall P new.

(** The exception a failing test batch raises: reading an unset
    [n_outputs], or else a shape mismatch. *)
Definition batch_error (e : Ensemble) : PyError :=
  match n_outputs e with None => AttributeError | Some _ => ShapeError end.

(** What one iteration of [FusionClassifier.predict] adds to [correct]. *)
Definition cls_batch_result (w : World) (data : Tensor) (target : list nat) : PyError + nat :=
  sum_bind (FusionClassifier.forward (ens w) data)
    (fun output => sum_bind (argmax_rows output) (fun pred => count_eq pred target)).

(** What one iteration of [FusionRegressor.predict] adds to [mse]. *)
Definition reg_batch_result (w : World) (data : Tensor) (target : Tensor) : PyError + PyFloat :=
  sum_bind (FusionRegressor.forward (ens w) data) (fun output => mse_loss output target).

(** An iteration of [FusionClassifier.predict] counting [correct] exactly,
    without float32 rounding. *)
Definition cls_exact_batch (correct : Z) (data : Tensor) (target : list nat) : M Z :=
  fun w => (match cls_batch_result w data target with
            | inl err => inl err
            | inr c => inr (correct + Z.of_nat c)%Z
            end, w).

(** * Properties *)

(** ** Frame lemmas for the monad *)


Section Keeps.
Context {B : Type} (f : World -> B).

Lemma keeps_ret {A} (a : A) : keeps f (ret a).
Proof. intro w; reflexivity. Qed.

Lemma keeps_lift {A} (r : PyError + A) : keeps f (lift r).
Proof. intro w; reflexivity. Qed.

Lemma keeps_raise {A} (err : PyError) : keeps f (@raise A err).
Proof. intro w; reflexivity. Qed.

Lemma keeps_get_ens : keeps f get_ens.
Proof. intro w; reflexivity. Qed.

Lemma keeps_bind {A C} (m : M A) (k : A -> M C) :
  keeps f m -> (forall a, keeps f (k a)) -> keeps f (bind m k).
Proof.
  intros Hm Hk w; unfold bind.
  specialize (Hm w); destruct (m w) as [[err | a] w']; simpl in *; [exact Hm|].
  rewrite Hk; exact Hm.
Qed.

Lemma keeps_for_batches {T} (body : nat -> Tensor -> T -> M unit) :
  (forall i d t, keeps f (body i d t)) ->
  forall bs idx, keeps f (for_batches body idx bs).
Proof.
  intros Hb bs; induction bs as [|[d t] bs IH]; intro idx; simpl.
  - apply keeps_ret.
  - apply keeps_bind; auto.
Qed.

Lemma keeps_for_range (body : nat -> M unit) :
  (forall i, keeps f (body i)) -> forall count start, keeps f (for_range body start count).
Proof.
  intros Hb count; induction count as [|c IH]; intro start; simpl.
  - apply keeps_ret.
  - apply keeps_bind; auto.
Qed.

Lemma keeps_fold_batches {T A} (body : A -> Tensor -> T -> M A) :
  (forall a d t, keeps f (body a d t)) ->
  forall bs acc, keeps f (fold_batches body acc bs).
Proof.
  intros Hb bs; induction bs as [|[d t] bs IH]; intro acc; simpl.
  - apply keeps_ret.
  - apply keeps_bind; auto.
Qed.

End Keeps.

(** Decompose a computation into the steps [keeps] is proved for. *)
Ltac keeps_tac :=
  repeat match goal with
  | |- keeps _ (bind _ _) => apply keeps_bind; [ | intro ]
  | |- keeps _ (ret _) => apply keeps_ret
  | |- keeps _ (lift _) => apply keeps_lift
  | |- keeps _ (raise _) => apply keeps_raise
  | |- keeps _ get_ens => apply keeps_get_ens
  | |- keeps _ (for_batches _ _ _) => apply keeps_for_batches; intros
  | |- keeps _ (for_range _ _ _) => apply keeps_for_range; intros
  | |- keeps _ (fold_batches _ _ _) => apply keeps_fold_batches; intros
  | |- keeps _ (if ?b then _ else _) => destruct b
  | |- keeps _ (match ?x with _ => _ end) => destruct x
  end.


Lemma keeps_config_modify g :
  (forall e, n_estimators (g e) = n_estimators e /\ device (g e) = device e) ->
  keeps config (modify_ens g).
Proof.
  intros Hg w; unfold config; simpl; destruct (Hg (ens w)) as [-> ->]; reflexivity.
Qed.

Lemma keeps_config_print l : keeps config (print l).
Proof. intro w; reflexivity. Qed.

Lemma keeps_config_make env : keeps config (_make_estimator env).
Proof. intro w; reflexivity. Qed.

Lemma keeps_config_append env k : keeps config (append_estimators env k).
Proof.
  induction k as [|k IH]; simpl; keeps_tac; auto using keeps_config_make.
  apply keeps_config_modify; intros []; split; reflexivity.
Qed.

(** Close the atomic steps that touch the ensemble. *)
Ltac keeps_config_tac :=
  keeps_tac;
  first [ apply keeps_config_print
        | apply keeps_config_append
        | apply keeps_config_modify; intros []; split; reflexivity ].

Lemma cls_fit_keeps_config env L lr wd ep k li :
  keeps config (FusionClassifier.fit env L lr wd ep k li).
Proof.
  unfold FusionClassifier.fit, FusionClassifier.train_batch, train; cbv zeta.
  keeps_config_tac.
Qed.

Lemma reg_fit_keeps_config env L lr wd ep k li :
  keeps config (FusionRegressor.fit env L lr wd ep k li).
Proof.
  unfold FusionRegressor.fit, FusionRegressor.train_batch, train.
  keeps_config_tac.
Qed.

Lemma cls_predict_batch_keeps c d t :
  keeps (fun w => w) (FusionClassifier.predict_batch c d t).
Proof. unfold FusionClassifier.predict_batch; keeps_tac. Qed.

Lemma reg_predict_batch_keeps m d t :
  keeps (fun w => w) (FusionRegressor.predict_batch m d t).
Proof. unfold FusionRegressor.predict_batch; keeps_tac. Qed.


Lemma eval_world_idem w : eval_world (eval_world w) = eval_world w.
Proof. destruct w as [[] ? ?]; reflexivity. Qed.

Lemma bind_eval {A} (m : M A) w : (eval ;; m) w = m (eval_world w).
Proof. reflexivity. Qed.

(** [predict] changes nothing but the mode flag, whatever its outcome. *)
Lemma cls_predict_world L w :
  snd (FusionClassifier.predict L w) = eval_world w.
Proof.
  unfold FusionClassifier.predict; rewrite bind_eval.
  apply (keeps_bind (fun w => w)).
  - apply keeps_fold_batches; intros; apply cls_predict_batch_keeps.
  - intro; keeps_tac.
Qed.

Lemma reg_predict_world L w :
  snd (FusionRegressor.predict L w) = eval_world w.
Proof.
  unfold FusionRegressor.predict; rewrite bind_eval.
  apply (keeps_bind (fun w => w)).
  - apply keeps_fold_batches; intros; apply reg_predict_batch_keeps.
  - intro; keeps_tac.
Qed.

(** [predict] starts from the evaluation-mode world: its outcome is that of
    a run started there. *)
Lemma cls_predict_from_eval L w :
  FusionClassifier.predict L w = FusionClassifier.predict L (eval_world w).
Proof.
  unfold FusionClassifier.predict; rewrite !bind_eval, eval_world_idem; reflexivity.
Qed.

Lemma reg_predict_from_eval L w :
  FusionRegressor.predict L w = FusionRegressor.predict L (eval_world w).
Proof.
  unfold FusionRegressor.predict; rewrite !bind_eval, eval_world_idem; reflexivity.
Qed.


Lemma ens_only_bind {A C} (m : M A) (k : A -> M C) :
  ens_only m -> (forall a, ens_only (k a)) -> ens_only (bind m k).
Proof.
  intros Hm Hk w1 w2 E; unfold bind.
  rewrite (Hm w1 w2 E), (Hm w2 w2 eq_refl); simpl.
  destruct (fst (m w2)) as [err | a]; [reflexivity|].
  rewrite (Hk a w1 w2 E); reflexivity.
Qed.

Lemma ens_only_fold_batches {T A} (body : A -> Tensor -> T -> M A) :
  (forall a d t, ens_only (body a d t)) ->
  forall bs acc, ens_only (fold_batches body acc bs).
Proof.
  intros Hb bs; induction bs as [|[d t] bs IH]; intros acc w1 w2 E; simpl.
  - reflexivity.
  - apply ens_only_bind; auto.
Qed.

Ltac ens_only_tac :=
  repeat match goal with
  | |- ens_only (bind _ _) => apply ens_only_bind; [ | intro ]
  | |- ens_only (fold_batches _ _ _) => apply ens_only_fold_batches; intros
  | |- ens_only (if ?b then _ else _) => destruct b
  | |- ens_only (match ?x with _ => _ end) => destruct x
  | |- ens_only _ => let w1 := fresh "w" in let w2 := fresh "w" in
                     let E := fresh "E" in
                     intros w1 w2 E; unfold ret, lift, raise, get_ens; rewrite ?E; reflexivity
  end.

Lemma cls_predict_result L w1 w2 :
  ens (eval_world w1) = ens (eval_world w2) ->
  fst (FusionClassifier.predict L w1) = fst (FusionClassifier.predict L w2).
Proof.
  intro E; unfold FusionClassifier.predict; rewrite !bind_eval.
  match goal with |- fst (?m _) = _ => assert (H : ens_only m) end.
  { unfold FusionClassifier.predict_batch; ens_only_tac. }
  rewrite (H _ _ E); reflexivity.
Qed.

Lemma reg_predict_result L w1 w2 :
  ens (eval_world w1) = ens (eval_world w2) ->
  fst (FusionRegressor.predict L w1) = fst (FusionRegressor.predict L w2).
Proof.
  intro E; unfold FusionRegressor.predict; rewrite !bind_eval.
  match goal with |- fst (?m _) = _ => assert (H : ens_only m) end.
  { unfold FusionRegressor.predict_batch; ens_only_tac. }
  rewrite (H _ _ E); reflexivity.
Qed.

(** ** The estimator collection *)


Lemma append_estimators_run env k w :
  append_estimators env k w =
  (inr tt, mkWorld (set_estimators (estimators_ (ens w) ++ fresh_estimators env (made w) k) (ens w))
                   (made w + k) (stdout w)).
Proof.
  revert w; induction k as [|k IH]; intro w.
  - destruct w as [[] ? ?]; simpl; rewrite app_nil_r, Nat.add_0_r; reflexivity.
  - simpl; unfold bind; simpl; rewrite IH; simpl.
    destruct w as [[] ? ?]; simpl; rewrite <- app_assoc, Nat.add_succ_r; reflexivity.
Qed.


Lemma step_estimators_ids_from upd l s :
  map est_id (map (fun '(i, est) => mkEstimator (est_id est) (upd i))
                  (combine (seq s (length l)) l)) = map est_id l.
Proof.
  revert s; induction l as [|est l IH]; intro s; simpl; [reflexivity|].
  rewrite IH; reflexivity.
Qed.

Lemma step_estimators_ids upd l : map est_id (step_estimators upd l) = map est_id l.
Proof. apply step_estimators_ids_from. Qed.

Lemma keeps_ids_modify g :
  (forall e, map est_id (estimators_ (g e)) = map est_id (estimators_ e)) ->
  keeps ids (modify_ens g).
Proof. intros Hg w; unfold ids; simpl; rewrite Hg; reflexivity. Qed.

Lemma keeps_ids_print l : keeps ids (print l).
Proof. intro w; reflexivity. Qed.

Ltac keeps_ids_tac :=
  keeps_tac;
  first [ apply keeps_ids_print
        | apply keeps_ids_modify; intros []; simpl;
          rewrite ?step_estimators_ids; reflexivity ].

(** [fit] appends [n_estimators] fresh instances; nothing after that step
    adds, removes or replaces an estimator. *)
Lemma cls_fit_ids env L lr wd ep kind li w :
  ids (snd (FusionClassifier.fit env L lr wd ep kind li w)) =
  (map est_id (estimators_ (ens w)) ++ seq (made w) (n_estimators (ens w)),
   (made w + n_estimators (ens w))%nat).
Proof.
  unfold FusionClassifier.fit; unfold bind at 1; cbn [get_ens fst snd].
  unfold bind at 1; rewrite append_estimators_run; cbv beta iota.
  match goal with |- ids (snd (?m ?x)) = _ =>
    assert (K : keeps ids m); [ | rewrite K ] end.
  - unfold FusionClassifier.train_batch, train; cbv zeta; keeps_ids_tac.
  - unfold ids, fresh_estimators; simpl; rewrite map_app, map_map, map_id; reflexivity.
Qed.

Lemma reg_fit_ids env L lr wd ep kind li w :
  ids (snd (FusionRegressor.fit env L lr wd ep kind li w)) =
  (map est_id (estimators_ (ens w)) ++ seq (made w) (n_estimators (ens w)),
   (made w + n_estimators (ens w))%nat).
Proof.
  unfold FusionRegressor.fit; unfold bind at 1; cbn [get_ens fst snd].
  unfold bind at 1; rewrite append_estimators_run; cbv beta iota.
  match goal with |- ids (snd (?m ?x)) = _ =>
    assert (K : keeps ids m); [ | rewrite K ] end.
  - unfold FusionRegressor.train_batch, train; keeps_ids_tac.
  - unfold ids, fresh_estimators; simpl; rewrite map_app, map_map, map_id; reflexivity.
Qed.

Lemma length_ids w : length (estimators_ (ens w)) = length (fst (ids w)).
Proof. unfold ids; simpl; rewrite length_map; reflexivity. Qed.

(** ** Validation *)

Lemma validate_invalid lr wd ep li :
  (lr <= 0 \/ wd < 0 \/ (ep <= 0)%Z \/ (li <= 0)%Z) ->
  _validate_parameters lr wd ep li = inl ValueError.
Proof.
  intro H; unfold _validate_parameters.
  destruct (Rle_dec lr 0); [reflexivity|].
  destruct (Rlt_dec wd 0); [reflexivity|].
  destruct (Z.leb_spec ep 0); [reflexivity|].
  destruct (Z.leb_spec li 0); [reflexivity|].
  exfalso; destruct H as [H|[H|[H|H]]]; [lra|lra|lia|lia].
Qed.

Lemma set_optimizer_error kind lr wd err :
  set_optimizer kind lr wd = inl err -> err = UnsupportedOptimizer \/ err = ValueError.
Proof.
  unfold set_optimizer; destruct (negb _); [intro H; injection H as <-; auto|].
  destruct (Rlt_dec lr 0); [intro H; injection H as <-; auto|].
  destruct (Rlt_dec wd 0); [intro H; injection H as <-; auto | discriminate].
Qed.

Lemma set_optimizer_supported kind lr wd :
  In kind ["SGD"; "Adam"; "RMSprop"]%string -> 0 <= lr -> 0 <= wd ->
  set_optimizer kind lr wd = inr (mkOptimizer kind lr wd).
Proof.
  intros Hk Hlr Hwd; unfold set_optimizer.
  replace (existsb (String.eqb kind) ["SGD"; "Adam"; "RMSprop"]%string) with true
    by (symmetry; apply existsb_exists; exists kind; split; [exact Hk | apply String.eqb_refl]).
  destruct (Rlt_dec lr 0); [lra|]; destruct (Rlt_dec wd 0); [lra|]; reflexivity.
Qed.

(** A [fit] with an invalid hyperparameter raises before its training loop,
    after the estimators have been appended. *)
Lemma cls_fit_rejects env L lr wd ep kind li w :
  (lr <= 0 \/ wd < 0 \/ (ep <= 0)%Z \/ (li <= 0)%Z) ->
  let '(r, w') := FusionClassifier.fit env L lr wd ep kind li w in
  (exists err, r = inl err) /\
  estimators_ (ens w') =
    estimators_ (ens w) ++ fresh_estimators env (made w) (n_estimators (ens w)) /\
  stdout w' = stdout w /\
  (batches L <> [] -> set_optimizer kind lr wd <> inl UnsupportedOptimizer ->
   r = inl ValueError).
Proof.
  intro Hinv.
  unfold FusionClassifier.fit; unfold bind at 1; cbn [get_ens fst snd].
  unfold bind at 1; rewrite append_estimators_run; cbv beta iota.
  unfold decide_n_outputs_cls; destruct (batches L) as [|b bs] eqn:EB.
  - simpl; split; [eauto|]; split; [destruct (ens w); reflexivity|].
    split; [reflexivity|]; intros H; congruence.
  - unfold bind at 1, lift at 1; cbv beta iota.
    unfold bind at 1, modify_ens at 1; cbv beta iota.
    unfold bind at 1, lift at 1; destruct (set_optimizer kind lr wd) as [err|opt] eqn:ES.
    + simpl; split; [eauto|]; split; [destruct (ens w); reflexivity|].
      split; [reflexivity|]; intros _ H.
      destruct (set_optimizer_error _ _ _ _ ES) as [-> | ->]; congruence.
    + cbv beta iota; unfold bind at 1, train, modify_ens at 1; cbv beta iota.
      unfold bind at 1, lift at 1; rewrite validate_invalid by exact Hinv; simpl.
      split; [eauto|]; split; [destruct (ens w); reflexivity|]; split; [reflexivity|]; auto.
Qed.

Lemma reg_fit_rejects env L lr wd ep kind li w :
  (lr <= 0 \/ wd < 0 \/ (ep <= 0)%Z \/ (li <= 0)%Z) ->
  let '(r, w') := FusionRegressor.fit env L lr wd ep kind li w in
  (exists err, r = inl err) /\
  estimators_ (ens w') =
    estimators_ (ens w) ++ fresh_estimators env (made w) (n_estimators (ens w)) /\
  stdout w' = stdout w /\
  (batches L <> [] -> set_optimizer kind lr wd <> inl UnsupportedOptimizer ->
   r = inl ValueError).
Proof.
  intro Hinv.
  unfold FusionRegressor.fit; unfold bind at 1; cbn [get_ens fst snd].
  unfold bind at 1; rewrite append_estimators_run; cbv beta iota.
  unfold decide_n_outputs_reg; destruct (batches L) as [|[d t] bs] eqn:EB.
  - simpl; split; [eauto|]; split; [destruct (ens w); reflexivity|].
    split; [reflexivity|]; intros H; congruence.
  - unfold bind at 1, lift at 1; cbv beta iota.
    unfold bind at 1, modify_ens at 1; cbv beta iota.
    unfold bind at 1, lift at 1; destruct (set_optimizer kind lr wd) as [err|opt] eqn:ES.
    + simpl; split; [eauto|]; split; [destruct (ens w); reflexivity|].
      split; [reflexivity|]; intros _ H.
      destruct (set_optimizer_error _ _ _ _ ES) as [-> | ->]; congruence.
    + cbv beta iota; unfold bind at 1, train, modify_ens at 1; cbv beta iota.
      unfold bind at 1, lift at 1; rewrite validate_invalid by exact Hinv; simpl.
      split; [eauto|]; split; [destruct (ens w); reflexivity|]; split; [reflexivity|]; auto.
Qed.

(** ** The mode flag *)

Lemma keeps_training_modify g :
  (forall e, training (g e) = training e) -> keeps (fun w => training (ens w)) (modify_ens g).
Proof. intros Hg w; simpl; apply Hg. Qed.

Lemma keeps_training_print l : keeps (fun w => training (ens w)) (print l).
Proof. intro w; reflexivity. Qed.

Ltac keeps_training_tac :=
  keeps_tac;
  first [ apply keeps_training_print
        | apply keeps_training_modify; intros []; reflexivity ].

(** [fit] switches to train mode right after binding its optimizer, and
    nothing after that changes the flag; a [fit] that raises earlier leaves
    it as it was. *)
Lemma cls_fit_training env L lr wd ep kind li w :
  let '(r, w') := FusionClassifier.fit env L lr wd ep kind li w in
  match decide_n_outputs_cls L, set_optimizer kind lr wd with
  | inr _, inr _ => training (ens w') = true
  | _, _ => training (ens w') = training (ens w) /\ exists err, r = inl err
  end.
Proof.
  unfold FusionClassifier.fit; unfold bind at 1; cbn [get_ens fst snd].
  unfold bind at 1; rewrite append_estimators_run; cbv beta iota.
  unfold bind at 1, lift at 1; destruct (decide_n_outputs_cls L) as [err|n].
  { simpl; split; [destruct (ens w); reflexivity | eauto]. }
  unfold bind at 1, modify_ens at 1; cbv beta iota.
  unfold bind at 1, lift at 1; destruct (set_optimizer kind lr wd) as [err|opt].
  { simpl; split; [destruct (ens w); reflexivity | eauto]. }
  cbv beta iota; unfold bind at 1, train, modify_ens at 1; cbv beta iota.
  match goal with |- match ?m ?x with _ => _ end =>
    assert (K : keeps (fun w => training (ens w)) m);
    [ | pose proof (K x) as Hk; destruct (m x) as [r w'] eqn:E; simpl in Hk |- *; exact Hk ]
  end.
  unfold FusionClassifier.train_batch; cbv zeta; keeps_training_tac.
Qed.

Lemma reg_fit_training env L lr wd ep kind li w :
  let '(r, w') := FusionRegressor.fit env L lr wd ep kind li w in
  match decide_n_outputs_reg L, set_optimizer kind lr wd with
  | inr _, inr _ => training (ens w') = true
  | _, _ => training (ens w') = training (ens w) /\ exists err, r = inl err
  end.
Proof.
  unfold FusionRegressor.fit; unfold bind at 1; cbn [get_ens fst snd].
  unfold bind at 1; rewrite append_estimators_run; cbv beta iota.
  unfold bind at 1, lift at 1; destruct (decide_n_outputs_reg L) as [err|n].
  { simpl; split; [destruct (ens w); reflexivity | eauto]. }
  unfold bind at 1, modify_ens at 1; cbv beta iota.
  unfold bind at 1, lift at 1; destruct (set_optimizer kind lr wd) as [err|opt].
  { simpl; split; [destruct (ens w); reflexivity | eauto]. }
  cbv beta iota; unfold bind at 1, train, modify_ens at 1; cbv beta iota.
  match goal with |- match ?m ?x with _ => _ end =>
    assert (K : keeps (fun w => training (ens w)) m);
    [ | pose proof (K x) as Hk; destruct (m x) as [r w'] eqn:E; simpl in Hk |- *; exact Hk ]
  end.
  unfold FusionRegressor.train_batch; keeps_training_tac.
Qed.

(** * The claims *)

(** ** C1: rejection of invalid hyperparameters *)

(** C1 (amended). A [fit] of either ensemble with [lr <= 0],
    [weight_decay < 0], [epochs <= 0] or [log_interval <= 0] always raises and
    runs no training step: no optimizer step (the estimators are exactly the
    fresh instances) and no status line. It raises only after [n_estimators]
    fresh estimators have been appended to [estimators_], and these remain;
    on a non-empty training loader with a supported optimizer kind the
    error is a ValueError. *)
Theorem fit_invalid_hyperparameters_rejected_after_construction
  env (L : Loader (list nat)) (Lr : Loader Tensor) lr wd ep kind li w :
  (lr <= 0 \/ wd < 0 \/ (ep <= 0)%Z \/ (li <= 0)%Z) ->
  (let '(r, w') := FusionClassifier.fit env L lr wd ep kind li w in
   (exists err, r = inl err) /\
   estimators_ (ens w') =
     estimators_ (ens w) ++ fresh_estimators env (made w) (n_estimators (ens w)) /\
   stdout w' = stdout w /\
   (batches L <> [] -> set_optimizer kind lr wd <> inl UnsupportedOptimizer ->
    r = inl ValueError)) /\
  (let '(r, w') := FusionRegressor.fit env Lr lr wd ep kind li w in
   (exists err, r = inl err) /\
   estimators_ (ens w') =
     estimators_ (ens w) ++ fresh_estimators env (made w) (n_estimators (ens w)) /\
   stdout w' = stdout w /\
   (batches Lr <> [] -> set_optimizer kind lr wd <> inl UnsupportedOptimizer ->
    r = inl ValueError)).
Proof.
  intro Hinv; split; [apply cls_fit_rejects | apply reg_fit_rejects]; exact Hinv.
Qed.

Lemma fit_invalid_hyperparameters_rejected_after_construction_witness :
  (0 <= 0)%Z /\
  let w0 := mkWorld (init_ensemble 2 "cpu") 0 [] in
  (let '(r, w') := FusionClassifier.fit demo_env demo_cls_loader (1/1000) (5/10000)
                     0 "Adam" 100 w0 in
   (exists err, r = inl err) /\
   estimators_ (ens w') =
     estimators_ (ens w0) ++ fresh_estimators demo_env (made w0) (n_estimators (ens w0)) /\
   stdout w' = stdout w0 /\
   (batches demo_cls_loader <> [] ->
    set_optimizer "Adam" (1/1000) (5/10000) <> inl UnsupportedOptimizer ->
    r = inl ValueError)) /\
  (let '(r, w') := FusionRegressor.fit demo_env demo_reg_loader (1/1000) (5/10000)
                     0 "Adam" 100 w0 in
   (exists err, r = inl err) /\
   estimators_ (ens w') =
     estimators_ (ens w0) ++ fresh_estimators demo_env (made w0) (n_estimators (ens w0)) /\
   stdout w' = stdout w0 /\
   (batches demo_reg_loader <> [] ->
    set_optimizer "Adam" (1/1000) (5/10000) <> inl UnsupportedOptimizer ->
    r = inl ValueError)).
Proof.
  split; [lia|].
  apply (fit_invalid_hyperparameters_rejected_after_construction
           demo_env demo_cls_loader demo_reg_loader (1/1000) (5/10000) 0 "Adam" 100
           (mkWorld (init_ensemble 2 "cpu") 0 [])).
  right; right; left; lia.
Defined.

(** C1 counterexample: with [epochs = 0] the call is rejected, yet the
    estimator collection of a fresh ensemble of two is no longer empty. *)
Lemma fit_epochs0_mutates_before_rejecting :
  let w0 := mkWorld (init_ensemble 2 "cpu") 0 [] in
  let '(r, w') := FusionClassifier.fit demo_env demo_cls_loader (1/1000) (5/10000)
                    0 "Adam" 100 w0 in
  r = inl ValueError /\ estimators_ (ens w0) = [] /\
  length (estimators_ (ens w')) = 2%nat.
Proof.
  cbv zeta.
  pose proof (cls_fit_rejects demo_env demo_cls_loader (1/1000) (5/10000) 0 "Adam" 100
                (mkWorld (init_ensemble 2 "cpu") 0 [])) as H.
  pose proof (cls_fit_ids demo_env demo_cls_loader (1/1000) (5/10000) 0 "Adam" 100
                (mkWorld (init_ensemble 2 "cpu") 0 [])) as Hid.
  destruct (FusionClassifier.fit demo_env demo_cls_loader (1/1000) (5/10000) 0 "Adam" 100
              (mkWorld (init_ensemble 2 "cpu") 0 [])) as [r w'] eqn:E.
  destruct H as (_ & _ & _ & Hr); [right; right; left; lia|].
  split; [apply Hr; [discriminate|]|].
  { rewrite set_optimizer_supported by (simpl; auto; lra); discriminate. }
  split; [reflexivity|].
  cbn [snd] in Hid; rewrite length_ids, Hid; reflexivity.
Qed.

(** ** C5: the estimator collection *)

(** C5 (amended). [estimators_] is empty on construction and [predict]
    never changes it. Every [fit] call of either ensemble, whatever its
    outcome, calls the factory exactly [n_estimators] times and appends the
    fresh instances in call order to the collection, without clearing it;
    no later step adds, removes or replaces an estimator. So the first [fit]
    leaves [n_estimators] estimators, and each further call adds
    [n_estimators] more. *)
Theorem fit_appends_n_estimators_fresh_instances :
  (forall env L lr wd ep kind li w,
     let w' := snd (FusionClassifier.fit env L lr wd ep kind li w) in
     map est_id (estimators_ (ens w')) =
       map est_id (estimators_ (ens w)) ++ seq (made w) (n_estimators (ens w)) /\
     made w' = (made w + n_estimators (ens w))%nat /\
     length (estimators_ (ens w')) =
       (length (estimators_ (ens w)) + n_estimators (ens w))%nat) /\
  (forall env L lr wd ep kind li w,
     let w' := snd (FusionRegressor.fit env L lr wd ep kind li w) in
     map est_id (estimators_ (ens w')) =
       map est_id (estimators_ (ens w)) ++ seq (made w) (n_estimators (ens w)) /\
     made w' = (made w + n_estimators (ens w))%nat /\
     length (estimators_ (ens w')) =
       (length (estimators_ (ens w)) + n_estimators (ens w))%nat) /\
  (forall n dev, estimators_ (init_ensemble n dev) = []) /\
  (forall L w, estimators_ (ens (snd (FusionClassifier.predict L w))) = estimators_ (ens w)) /\
  (forall L w, estimators_ (ens (snd (FusionRegressor.predict L w))) = estimators_ (ens w)).
Proof.
  split; [|split; [|split; [|split]]].
  - intros env L lr wd ep kind li w; cbv zeta.
    pose proof (cls_fit_ids env L lr wd ep kind li w) as H; unfold ids in H.
    injection H as H1 H2; rewrite (length_ids (snd _)); unfold ids; simpl.
    rewrite H1, length_app, length_seq, length_map; auto.
  - intros env L lr wd ep kind li w; cbv zeta.
    pose proof (reg_fit_ids env L lr wd ep kind li w) as H; unfold ids in H.
    injection H as H1 H2; rewrite (length_ids (snd _)); unfold ids; simpl.
    rewrite H1, length_app, length_seq, length_map; auto.
  - reflexivity.
  - intros L w; rewrite cls_predict_world; destruct w as [[] ? ?]; reflexivity.
  - intros L w; rewrite reg_predict_world; destruct w as [[] ? ?]; reflexivity.
Qed.

(** C5 counterexample: a second [fit] on an ensemble of one estimator
    leaves two. *)
Lemma second_fit_duplicates_estimators :
  let w0 := mkWorld (init_ensemble 1 "cpu") 0 [] in
  let w1 := snd (FusionClassifier.fit demo_env demo_cls_loader (1/1000) (5/10000)
                   100 "Adam" 100 w0) in
  let w2 := snd (FusionClassifier.fit demo_env demo_cls_loader (1/1000) (5/10000)
                   100 "Adam" 100 w1) in
  length (estimators_ (ens w1)) = 1%nat /\
  length (estimators_ (ens w2)) = 2%nat /\
  n_estimators (ens w2) = 1%nat.
Proof.
  cbv zeta.
  set (w0 := mkWorld (init_ensemble 1 "cpu") 0 []).
  set (w1 := snd (FusionClassifier.fit demo_env demo_cls_loader (1/1000) (5/10000)
                    100 "Adam" 100 w0)).
  pose proof (cls_fit_ids demo_env demo_cls_loader (1/1000) (5/10000) 100 "Adam" 100 w0)
    as H1; fold w1 in H1.
  pose proof (cls_fit_ids demo_env demo_cls_loader (1/1000) (5/10000) 100 "Adam" 100 w1)
    as H2.
  pose proof (cls_fit_keeps_config demo_env demo_cls_loader (1/1000) (5/10000) 100 "Adam"
                100 w0) as C1; fold w1 in C1.
  pose proof (cls_fit_keeps_config demo_env demo_cls_loader (1/1000) (5/10000) 100 "Adam"
                100 w1) as C2.
  unfold config in C1, C2; injection C1 as C1 _; injection C2 as C2 _.
  rewrite !length_ids, H2; unfold ids in *; simpl in *.
  injection H1 as -> ->; rewrite C2, C1; split; [|split]; reflexivity.
Qed.

(** ** C7: determinism of [predict] *)

(** C7. The result of [predict] depends on the ensemble as it is in
    evaluation mode and on the loader only (not on the mode it was called
    in, nor on anything printed or constructed before); and a second call
    right after the first returns the same result and leaves the same
    state. *)
Theorem predict_deterministic_in_eval_mode :
  (forall L w1 w2, ens (eval_world w1) = ens (eval_world w2) ->
     fst (FusionClassifier.predict L w1) = fst (FusionClassifier.predict L w2)) /\
  (forall L w1 w2, ens (eval_world w1) = ens (eval_world w2) ->
     fst (FusionRegressor.predict L w1) = fst (FusionRegressor.predict L w2)) /\
  (forall L w, FusionClassifier.predict L (snd (FusionClassifier.predict L w)) =
               FusionClassifier.predict L w) /\
  (forall L w, FusionRegressor.predict L (snd (FusionRegressor.predict L w)) =
               FusionRegressor.predict L w).
Proof.
  split; [exact cls_predict_result|]; split; [exact reg_predict_result|]; split.
  - intros L w; rewrite cls_predict_world, <- cls_predict_from_eval; reflexivity.
  - intros L w; rewrite reg_predict_world, <- reg_predict_from_eval; reflexivity.
Qed.

(** ** C10: what [fit] and [predict] leave unchanged *)

(** C10 (amended). Whatever their outcome, [fit] and [predict] of either
    ensemble leave [n_estimators] and [device] unchanged, so that [fit]
    changes no ensemble field but [estimators_] (with the estimators'
    parameters), [n_outputs] and the mode flag. [fit] switches to train
    mode once [n_outputs] is decided and the optimizer is bound (whether it
    then returns or raises); a [fit] that raises before, while deciding
    [n_outputs] or binding the optimizer, leaves the flag as it was.
    [predict] changes nothing but the mode flag, which it sets to
    evaluation mode. *)
Theorem fit_predict_keep_configuration :
  (forall env L lr wd ep kind li w,
     config (snd (FusionClassifier.fit env L lr wd ep kind li w)) = config w) /\
  (forall env L lr wd ep kind li w,
     config (snd (FusionRegressor.fit env L lr wd ep kind li w)) = config w) /\
  (forall env L lr wd ep kind li w,
     let '(r, w') := FusionClassifier.fit env L lr wd ep kind li w in
     match decide_n_outputs_cls L, set_optimizer kind lr wd with
     | inr _, inr _ => training (ens w') = true
     | _, _ => training (ens w') = training (ens w) /\ exists err, r = inl err
     end) /\
  (forall env L lr wd ep kind li w,
     let '(r, w') := FusionRegressor.fit env L lr wd ep kind li w in
     match decide_n_outputs_reg L, set_optimizer kind lr wd with
     | inr _, inr _ => training (ens w') = true
     | _, _ => training (ens w') = training (ens w) /\ exists err, r = inl err
     end) /\
  (forall L w, snd (FusionClassifier.predict L w) =
               mkWorld (set_training false (ens w)) (made w) (stdout w)) /\
  (forall L w, snd (FusionRegressor.predict L w) =
               mkWorld (set_training false (ens w)) (made w) (stdout w)).
Proof.
  split; [intros; apply cls_fit_keeps_config|].
  split; [intros; apply reg_fit_keeps_config|].
  split; [intros; apply cls_fit_training|].
  split; [intros; apply reg_fit_training|].
  split; intros L w; [rewrite cls_predict_world | rewrite reg_predict_world]; reflexivity.
Qed.

(** C10 counterexample: [fit] on an ensemble in evaluation mode switches it
    to train mode, also when it then rejects its arguments. *)
Lemma fit_sets_train_mode :
  let w0 := mkWorld (mkEnsemble 1 None [] "cpu" false) 0 [] in
  training (ens w0) = false /\
  training (ens (snd (FusionClassifier.fit demo_env demo_cls_loader (1/1000) (5/10000)
                        0 "Adam" 100 w0))) = true.
Proof.
  cbv zeta; split; [reflexivity|].
  unfold FusionClassifier.fit.
  rewrite (validate_invalid (1/1000) (5/10000) 0 100) by (right; right; left; lia).
  rewrite set_optimizer_supported by (simpl; auto; lra).
  reflexivity.
Qed.

(** ** The averaging forward pass *)

Lemma bidx_lt dim i : (i < dim)%nat -> bidx dim i = i.
Proof.
  unfold bidx; destruct (Nat.eqb_spec dim 1); [lia | reflexivity].
Qed.

Lemma bcast_to_refl a : bcast_to a a = true.
Proof. unfold bcast_to; rewrite Nat.eqb_refl; reflexivity. Qed.

Lemma sumR_map_div {A} (f : A -> R) c l :
  sumR (map (fun a => f a / c) l) = / c * sumR (map f l).
Proof. induction l as [|a l IH]; simpl; [ring|]; rewrite IH; unfold Rdiv; ring. Qed.

(** The loop adds [estimator(X) / n_estimators] of every estimator to the
    accumulator, entry by entry, when every output has its shape. *)
Lemma avg_loop_spec e X ests acc B n :
  (forall est, In est ests ->
     rows (est_apply est (training e) X) = B /\ cols (est_apply est (training e) X) = n) ->
  rows acc = B -> cols acc = n ->
  exists T, avg_loop e X ests acc = inr T /\ rows T = B /\ cols T = n /\
    forall i j, (i < B)%nat -> (j < n)%nat ->
      entry T i j = entry acc i j +
        sumR (map (fun est => entry (est_apply est (training e) X) i j / INR (n_estimators e))
                  ests).
Proof.
  revert acc; induction ests as [|est ests IH]; intros acc Hsh HB Hn; simpl.
  - exists acc; repeat split; auto; intros; ring.
  - destruct (Hsh est (or_introl eq_refl)) as [Hr Hc].
    unfold iadd, tdiv at 1 2; simpl; rewrite Hr, Hc, HB, Hn, !bcast_to_refl; simpl.
    edestruct (IH (mkTensor B n (fun i j => entry acc i j +
                   entry (est_apply est (training e) X) (bidx B i) (bidx n j) / INR (n_estimators e))))
      as (T & HT & HTr & HTc & HTe);
      [intros x Hx; apply Hsh; right; exact Hx | reflexivity | reflexivity |].
    exists T; repeat split; auto.
    intros i j Hi Hj; rewrite HTe by auto; simpl; rewrite !bidx_lt by auto; ring.
Qed.

(** A successful loop keeps the shape of its accumulator. *)
Lemma avg_loop_shape e X ests acc T :
  avg_loop e X ests acc = inr T -> rows T = rows acc /\ cols T = cols acc.
Proof.
  revert acc; induction ests as [|est ests IH]; intros acc H; simpl in H.
  - injection H as <-; auto.
  - unfold iadd in H; destruct (_ && _); [|discriminate].
    apply IH in H; simpl in H; exact H.
Qed.

(** The classifier's averaged output and the regressor's output are the
    same computation. *)
Lemma cls_forward_reg_forward e X :
  FusionClassifier._forward e X = FusionRegressor.forward e X.
Proof. reflexivity. Qed.

(** ** Softmax *)

Lemma sum_upto_pos f n : (forall k, 0 < f k) -> (1 <= n)%nat -> 0 < sum_upto f n.
Proof.
  intros Hf Hn; induction n as [|n IH]; [lia|].
  change (0 < sum_upto f n + f n); destruct n as [|n].
  - simpl; specialize (Hf 0%nat); lra.
  - specialize (IH ltac:(lia)); specialize (Hf (S n)); lra.
Qed.

Lemma sum_upto_div f c n : sum_upto (fun j => f j / c) n = sum_upto f n / c.
Proof. induction n as [|n IH]; simpl; [unfold Rdiv; ring|]; rewrite IH; unfold Rdiv; ring. Qed.

Lemma sum_upto_ext f g n :
  (forall k, (k < n)%nat -> f k = g k) -> sum_upto f n = sum_upto g n.
Proof.
  induction n as [|n IH]; intro H; simpl; [reflexivity|].
  rewrite IH by (intros; apply H; lia); rewrite H by lia; reflexivity.
Qed.

(** Every row of [softmax_rows t] is a probability distribution. *)
Lemma softmax_row_distribution t i :
  (1 <= cols t)%nat ->
  (forall j, 0 < entry (softmax_rows t) i j) /\
  sum_upto (entry (softmax_rows t) i) (cols t) = 1.
Proof.
  intro Hn; simpl.
  assert (HS : 0 < sum_upto (fun k => exp (entry t i k)) (cols t))
    by (apply sum_upto_pos; auto using exp_pos).
  split.
  - intro j; apply Rdiv_lt_0_compat; auto using exp_pos.
  - rewrite sum_upto_div; field; lra.
Qed.

(** The first arg-max of a row is kept by a strictly increasing map. *)
Lemma row_argmax_mono (g : R -> R) f n :
  (forall x y, x < y <-> g x < g y) ->
  row_argmax (fun j => g (f j)) n = row_argmax f n.
Proof.
  intro Hg; unfold row_argmax.
  generalize (seq 1 (n - 1)) as l; intro l; generalize 0%nat as b.
  induction l as [|c l IH]; intro b; simpl; [reflexivity|].
  destruct (Rlt_dec (g (f b)) (g (f c))) as [H1|H1];
    destruct (Rlt_dec (f b) (f c)) as [H2|H2]; try apply IH.
  - exfalso; apply H2, (proj2 (Hg _ _)), H1.
  - exfalso; apply H1, (proj1 (Hg _ _)), H2.
Qed.

Lemma softmax_row_argmax t i :
  row_argmax (entry (softmax_rows t) i) (cols t) = row_argmax (entry t i) (cols t).
Proof.
  destruct (cols t) as [|n] eqn:En; [reflexivity|].
  set (S := sum_upto (fun k => exp (entry t i k)) (S n)).
  assert (HS : 0 < S) by (apply sum_upto_pos; auto using exp_pos; lia).
  simpl; rewrite En; fold S.
  apply (row_argmax_mono (fun x => exp x / S)).
  intros x y; split; intro H.
  - apply Rmult_lt_compat_r; [apply Rinv_0_lt_compat; exact HS|]; apply exp_increasing, H.
  - apply exp_lt_inv; apply Rmult_lt_reg_r with (/ S); [apply Rinv_0_lt_compat; exact HS|].
    exact H.
Qed.

Lemma softmax_argmax_rows t : argmax_rows (softmax_rows t) = argmax_rows t.
Proof.
  unfold argmax_rows; simpl.
  destruct (_ && _); [reflexivity|].
  f_equal; apply map_ext; intro i; apply softmax_row_argmax.
Qed.

(** ** C4: the averaged forward pass *)

(** C4. For an ensemble of [N = n_estimators >= 1] estimators held in
    [estimators_], each answering a [B x n_outputs] tensor on a batch [X] of
    [B] rows, [FusionClassifier._forward] and [FusionRegressor.forward] both
    return the [B x n_outputs] tensor whose entries are
    [(1/N) * sum_i estimator_i(X)]; when estimator [i] answers the constant
    row [v_i], every output row is [(sum_i v_i) / N]. *)
Theorem averaged_forward_is_mean e X n :
  n_outputs e = Some n ->
  length (estimators_ e) = n_estimators e ->
  (1 <= n_estimators e)%nat ->
  (forall est, In est (estimators_ e) ->
     rows (est_apply est (training e) X) = rows X /\ cols (est_apply est (training e) X) = n) ->
  (exists T, FusionClassifier._forward e X = inr T /\ FusionRegressor.forward e X = inr T /\
     rows T = rows X /\ cols T = n /\
     forall i j, (i < rows X)%nat -> (j < n)%nat ->
       entry T i j = / INR (n_estimators e) *
         sumR (map (fun est => entry (est_apply est (training e) X) i j) (estimators_ e))) /\
  (forall v : Estimator -> nat -> R,
     (forall est i j, In est (estimators_ e) -> (i < rows X)%nat -> (j < n)%nat ->
        entry (est_apply est (training e) X) i j = v est j) ->
     exists T, FusionClassifier._forward e X = inr T /\ FusionRegressor.forward e X = inr T /\
       forall i j, (i < rows X)%nat -> (j < n)%nat ->
         entry T i j = sumR (map (fun est => v est j) (estimators_ e)) / INR (n_estimators e)).
Proof.
  intros Hn _ _ Hsh.
  destruct (avg_loop_spec e X (estimators_ e) (zeros (rows X) n) (rows X) n Hsh eq_refl eq_refl)
    as (T & HT & HTr & HTc & HTe).
  assert (HF : FusionClassifier._forward e X = inr T)
    by (unfold FusionClassifier._forward; rewrite Hn; exact HT).
  split.
  - exists T; repeat split; auto.
    intros i j Hi Hj; rewrite HTe by auto; simpl.
    rewrite (sumR_map_div (fun est => entry (est_apply est (training e) X) i j)); ring.
  - intros v Hv; exists T; repeat split; auto.
    intros i j Hi Hj; rewrite HTe by auto; simpl.
    rewrite (sumR_map_div (fun est => entry (est_apply est (training e) X) i j)).
    rewrite (map_ext_in (fun est => entry (est_apply est (training e) X) i j) (fun est => v est j))
      by (intros est Hin; apply Hv; auto).
    unfold Rdiv; ring.
Qed.

Lemma averaged_forward_is_mean_witness :
  n_outputs demo_ensemble = Some 2%nat /\
  length (estimators_ demo_ensemble) = n_estimators demo_ensemble /\
  (1 <= n_estimators demo_ensemble)%nat /\
  (forall est, In est (estimators_ demo_ensemble) ->
     rows (est_apply est (training demo_ensemble) (zeros 4 5)) = rows (zeros 4 5) /\
     cols (est_apply est (training demo_ensemble) (zeros 4 5)) = 2%nat) /\
  (forall v : Estimator -> nat -> R,
     (forall est i j, In est (estimators_ demo_ensemble) -> (i < 4)%nat -> (j < 2)%nat ->
        entry (est_apply est (training demo_ensemble) (zeros 4 5)) i j = v est j) ->
     exists T, FusionClassifier._forward demo_ensemble (zeros 4 5) = inr T /\
       FusionRegressor.forward demo_ensemble (zeros 4 5) = inr T /\
       forall i j, (i < 4)%nat -> (j < 2)%nat ->
         entry T i j = sumR (map (fun est => v est j) (estimators_ demo_ensemble)) / 3).
Proof.
  assert (Hsh : forall est, In est (estimators_ demo_ensemble) ->
     rows (est_apply est (training demo_ensemble) (zeros 4 5)) = rows (zeros 4 5) /\
     cols (est_apply est (training demo_ensemble) (zeros 4 5)) = 2%nat)
    by (intros est Hin; simpl in Hin; intuition; subst; split; reflexivity).
  split; [reflexivity|]; split; [reflexivity|]; split; [simpl; lia|]; split; [exact Hsh|].
  intros v Hv.
  destruct (averaged_forward_is_mean demo_ensemble (zeros 4 5) 2 eq_refl eq_refl
              ltac:(simpl; lia) Hsh) as [_ H].
  destruct (H v Hv) as (T & H1 & H2 & H3).
  exists T; split; [exact H1|]; split; [exact H2|].
  intros i j Hi Hj; rewrite H3 by auto; simpl; f_equal; field.
Defined.

(** ** C6: the classifier's output rows are distributions *)

(** C6. When [n_outputs] is set to [n >= 1] (the number of classes),
    every row of [FusionClassifier.forward e X] has [n] entries, each of
    them positive, and sums to 1 (exactly, over the reals). *)
Theorem forward_rows_are_distributions e X n P :
  n_outputs e = Some n -> (1 <= n)%nat ->
  FusionClassifier.forward e X = inr P ->
  rows P = rows X /\ cols P = n /\
  forall i, (i < rows P)%nat ->
    (forall j, (j < n)%nat -> 0 <= entry P i j) /\ sum_upto (entry P i) n = 1.
Proof.
  intros Hn H1 HP; unfold FusionClassifier.forward, FusionClassifier._forward in HP.
  rewrite Hn in HP.
  destruct (avg_loop e X (estimators_ e) (zeros (rows X) n)) as [err|T] eqn:HT;
    [discriminate|].
  injection HP as <-.
  apply avg_loop_shape in HT; destruct HT as [Hr Hc]; simpl in Hr, Hc.
  split; [exact Hr|]; split; [exact Hc|].
  intros i _.
  assert (Hc1 : (1 <= cols T)%nat) by lia.
  destruct (softmax_row_distribution T i Hc1) as [Hpos Hsum].
  rewrite Hc in Hsum; split; [intros j _; apply Rlt_le, Hpos | exact Hsum].
Qed.

Lemma forward_rows_are_distributions_witness :
  exists P, FusionClassifier.forward demo_ensemble (zeros 4 5) = inr P /\
  n_outputs demo_ensemble = Some 2%nat /\ (1 <= 2)%nat /\
  (rows P = rows (zeros 4 5) /\ cols P = 2%nat /\
   forall i, (i < rows P)%nat ->
     (forall j, (j < 2)%nat -> 0 <= entry P i j) /\ sum_upto (entry P i) 2 = 1).
Proof.
  eexists; split; [reflexivity|]; split; [reflexivity|]; split; [lia|].
  apply (forward_rows_are_distributions demo_ensemble (zeros 4 5) 2); [reflexivity | lia |].
  reflexivity.
Defined.

(** ** C8: softmax keeps the predicted class *)

(** C8. The per-row arg-max of [FusionClassifier.forward e X] (after
    softmax) is that of [FusionClassifier._forward e X] (before softmax),
    and so is the number of matches with any target, the count [fit]
    prints and [predict] accumulates. *)
Theorem softmax_keeps_argmax e X :
  sum_bind (FusionClassifier.forward e X) argmax_rows =
  sum_bind (FusionClassifier._forward e X) argmax_rows /\
  forall target,
    sum_bind (sum_bind (FusionClassifier.forward e X) argmax_rows)
             (fun pred => count_eq pred target) =
    sum_bind (sum_bind (FusionClassifier._forward e X) argmax_rows)
             (fun pred => count_eq pred target).
Proof.
  assert (H : sum_bind (FusionClassifier.forward e X) argmax_rows =
              sum_bind (FusionClassifier._forward e X) argmax_rows).
  { unfold FusionClassifier.forward.
    destruct (FusionClassifier._forward e X) as [err|T]; simpl; [reflexivity|].
    apply softmax_argmax_rows. }
  split; [exact H | intro target; rewrite H; reflexivity].
Qed.

(** ** Which exceptions the steps raise *)

Lemma avg_loop_error e X ests acc err :
  avg_loop e X ests acc = inl err -> err = ShapeError.
Proof.
  revert acc; induction ests as [|est ests IH]; intros acc H; simpl in H; [discriminate|].
  unfold iadd in H; destruct (_ && _); [exact (IH _ H) | congruence].
Qed.

Lemma reg_forward_error e X err :
  FusionRegressor.forward e X = inl err -> err <> ZeroDivisionError.
Proof.
  unfold FusionRegressor.forward; destruct (n_outputs e).
  - intro H; apply avg_loop_error in H; congruence.
  - congruence.
Qed.

Lemma cls_forward_error e X err :
  FusionClassifier.forward e X = inl err -> err <> ZeroDivisionError.
Proof.
  unfold FusionClassifier.forward; rewrite cls_forward_reg_forward.
  destruct (FusionRegressor.forward e X) eqn:H; [|discriminate].
  intro E; injection E as <-; apply (reg_forward_error e X _ H).
Qed.

Lemma argmax_rows_error t err : argmax_rows t = inl err -> err = ShapeError.
Proof. unfold argmax_rows; destruct (_ && _); congruence. Qed.

Lemma count_eq_error p t err : count_eq p t = inl err -> err = ShapeError.
Proof. unfold count_eq; destruct (bdim _ _); congruence. Qed.

Lemma mse_loss_error o t err : mse_loss o t = inl err -> err = ShapeError.
Proof.
  unfold mse_loss; destruct (bdim (rows o) (rows t)), (bdim (cols o) (cols t));
    try destruct (Nat.eqb _ 0); congruence.
Qed.

Lemma cls_predict_batch_error acc d t w err w' :
  FusionClassifier.predict_batch acc d t w = (inl err, w') -> err <> ZeroDivisionError.
Proof.
  unfold FusionClassifier.predict_batch, bind, get_ens, lift, ret; simpl.
  destruct (FusionClassifier.forward (ens w) d) as [e1|o] eqn:H1.
  { intro E; injection E as <- _; exact (cls_forward_error _ _ _ H1). }
  destruct (argmax_rows o) as [e2|p] eqn:H2.
  { intro E; injection E as <- _; apply argmax_rows_error in H2; congruence. }
  destruct (count_eq p t) as [e3|c] eqn:H3; [|discriminate].
  intro E; injection E as <- _; apply count_eq_error in H3; congruence.
Qed.

Lemma reg_predict_batch_error acc d t w err w' :
  FusionRegressor.predict_batch acc d t w = (inl err, w') -> err <> ZeroDivisionError.
Proof.
  unfold FusionRegressor.predict_batch, bind, get_ens, lift, ret; simpl.
  destruct (FusionRegressor.forward (ens w) d) as [e1|o] eqn:H1.
  { intro E; injection E as <- _; exact (reg_forward_error _ _ _ H1). }
  destruct (mse_loss o t) as [e2|l] eqn:H2; [|discriminate].
  intro E; injection E as <- _; apply mse_loss_error in H2; congruence.
Qed.

Lemma fold_batches_error {T A} (body : A -> Tensor -> T -> M A) :
  (forall acc d t w err w', body acc d t w = (inl err, w') -> err <> ZeroDivisionError) ->
  forall bs acc w err w',
    fold_batches body acc bs w = (inl err, w') -> err <> ZeroDivisionError.
Proof.
  intros Hb bs; induction bs as [|[d t] bs IH]; intros acc w err w' H; simpl in H.
  - discriminate.
  - unfold bind in H; destruct (body acc d t w) as [[e1|a] w1] eqn:E.
    + injection H as -> _; exact (Hb _ _ _ _ _ _ E).
    + exact (IH _ _ _ _ H).
Qed.

(** ** C9: the divisions of [predict] *)

(** C9. [FusionRegressor.predict] raises [ZeroDivisionError] exactly when
    the loader yields no batch (its final division is by [len(test_loader)]);
    [FusionClassifier.predict] never returns a value on an empty dataset
    and never divides by zero on a non-empty one. *)
Theorem predict_requires_nonempty_loader :
  (forall (L : Loader Tensor) w,
     fst (FusionRegressor.predict L w) = inl ZeroDivisionError <-> batches L = []) /\
  (forall (L : Loader (list nat)) w, dataset_len L = 0%nat ->
     exists err, fst (FusionClassifier.predict L w) = inl err) /\
  (forall (L : Loader (list nat)) w, dataset_len L <> 0%nat ->
     fst (FusionClassifier.predict L w) <> inl ZeroDivisionError).
Proof.
  split; [|split].
  - intros L w; unfold FusionRegressor.predict; rewrite bind_eval; unfold bind at 1.
    destruct (fold_batches FusionRegressor.predict_batch (Num 0) (batches L) (eval_world w))
      as [[err|m] w1] eqn:E.
    + pose proof (fold_batches_error _ reg_predict_batch_error _ _ _ _ _ E) as Hne.
      simpl; split; [congruence|].
      intro HL; rewrite HL in E; unfold fold_batches, ret in E; congruence.
    + destruct (batches L); simpl; split; congruence.
  - intros L w H0; unfold FusionClassifier.predict; rewrite bind_eval; unfold bind at 1.
    destruct (fold_batches FusionClassifier.predict_batch 0%Z (batches L) (eval_world w))
      as [[err|m] w1]; [simpl; eauto|].
    rewrite H0; simpl; eauto.
  - intros L w H0; unfold FusionClassifier.predict; rewrite bind_eval; unfold bind at 1.
    destruct (fold_batches FusionClassifier.predict_batch 0%Z (batches L) (eval_world w))
      as [[err|m] w1] eqn:E.
    + apply fold_batches_error in E; [|exact cls_predict_batch_error].
      simpl; congruence.
    + destruct (Nat.eqb_spec (dataset_len L) 0); [contradiction|]; simpl; discriminate.
Qed.

(** ** C3: the regressor's [predict] *)

Lemma sum_upto_nonneg f n : (forall k, 0 <= f k) -> 0 <= sum_upto f n.
Proof.
  intro Hf; induction n as [|n IH]; simpl; [lra|]; specialize (Hf n); lra.
Qed.

Lemma sum_upto_zero n : sum_upto (fun _ => 0) n = 0.
Proof. induction n as [|n IH]; simpl; [reflexivity|]; rewrite IH; ring. Qed.

Lemma div_nonneg a b : 0 <= a -> 0 <= b -> 0 <= a / b.
Proof.
  intros Ha Hb; destruct (Req_dec b 0) as [->|Hb0]; [rewrite Rdiv_0_r; lra|].
  apply Rmult_le_pos; [exact Ha|]; apply Rlt_le, Rinv_0_lt_compat; lra.
Qed.

Lemma mse_loss_nonneg o t x : mse_loss o t = inr (Num x) -> 0 <= x.
Proof.
  unfold mse_loss; destruct (bdim (rows o) (rows t)), (bdim (cols o) (cols t));
    try discriminate.
  destruct (Nat.eqb _ 0); [discriminate|].
  intro H; injection H as <-; apply div_nonneg; [|apply pos_INR].
  apply sum_upto_nonneg; intro i; apply sum_upto_nonneg; intro j; apply Rle_0_sqr.
Qed.

(** An output equal to its non-empty target, entry by entry, has loss 0. *)
Lemma mse_loss_zero o t :
  rows o = rows t -> cols o = cols t -> (rows t * cols t <> 0)%nat ->
  (forall i j, (i < rows t)%nat -> (j < cols t)%nat -> entry o i j = entry t i j) ->
  mse_loss o t = inr (Num 0).
Proof.
  intros Hr Hc Hne He; unfold mse_loss; rewrite Hr, Hc; unfold bdim; rewrite !Nat.eqb_refl.
  apply Nat.eqb_neq in Hne; rewrite Hne.
  do 2 f_equal.
  rewrite (sum_upto_ext _ (fun _ => 0)); [rewrite sum_upto_zero; apply Rdiv_0_l|].
  intros i Hi; rewrite (sum_upto_ext _ (fun _ => 0)); [apply sum_upto_zero|].
  intros j Hj; rewrite !bidx_lt by assumption; rewrite He by assumption.
  unfold Rsqr; ring.
Qed.

(** A broadcast dimension is empty exactly when one of the two is. *)
Lemma bdim_zero a b r : bdim a b = Some r -> (r = 0 <-> a = 0 \/ b = 0)%nat.
Proof.
  unfold bdim.
  destruct (Nat.eqb_spec a b) as [->|Hab]; [intro H; injection H as <-; lia|].
  destruct (Nat.eqb_spec a 1) as [->|Ha1]; [intro H; injection H as <-; lia|].
  destruct (Nat.eqb_spec b 1) as [->|Hb1]; [intro H; injection H as <-; lia|].
  discriminate.
Qed.

(** The loss is nan exactly when the output or the target has no rows or
    no columns. *)
Lemma mse_loss_nan o t l :
  mse_loss o t = inr l ->
  (l = NaN <-> (rows o = 0 \/ cols o = 0 \/ rows t = 0 \/ cols t = 0)%nat).
Proof.
  unfold mse_loss.
  destruct (bdim (rows o) (rows t)) as [r|] eqn:Er,
           (bdim (cols o) (cols t)) as [c|] eqn:Ec; try discriminate.
  apply bdim_zero in Er; apply bdim_zero in Ec.
  destruct (Nat.eqb_spec (r * c) 0) as [H0|H0]; intro H; injection H as <-.
  - split; [intros _; apply Nat.mul_eq_0 in H0; tauto | reflexivity].
  - split; [discriminate|]; intro Hz; exfalso; apply H0, Nat.mul_eq_0; tauto.
Qed.

Lemma fold_fadd_nan ms : fold_left fadd ms NaN = NaN.
Proof. induction ms as [|m ms IH]; [reflexivity|]; exact IH. Qed.

(** The accumulated sum is nan when one of the terms is, and otherwise
    the sum of the numbers. *)
Lemma fold_fadd_cases ms x0 :
  (In NaN ms /\ fold_left fadd ms (Num x0) = NaN) \/
  (exists xs, ms = map Num xs /\ fold_left fadd ms (Num x0) = Num (x0 + sumR xs)).
Proof.
  revert x0; induction ms as [|[y|] ms IH]; intro x0; simpl.
  - right; exists []; split; [reflexivity|]; simpl; rewrite Rplus_0_r; reflexivity.
  - destruct (IH (x0 + y)) as [[Hin Hf] | (xs & -> & Hf)].
    + left; split; [right; exact Hin | exact Hf].
    + right; exists (y :: xs); split; [reflexivity|]; rewrite Hf; simpl; f_equal; ring.
  - left; split; [left; reflexivity | apply fold_fadd_nan].
Qed.

Lemma reg_predict_batch_ok acc d t w a w' :
  FusionRegressor.predict_batch acc d t w = (inr a, w') ->
  w' = w /\ exists o l, FusionRegressor.forward (ens w) d = inr o /\
                        mse_loss o t = inr l /\ a = fadd acc l.
Proof.
  unfold FusionRegressor.predict_batch, bind, get_ens, lift, ret; simpl.
  destruct (FusionRegressor.forward (ens w) d) as [e1|o]; [discriminate|].
  destruct (mse_loss o t) as [e2|l] eqn:Hl; [discriminate|].
  intro E; injection E as <- <-; eauto 6.
Qed.

Lemma reg_fold_ok bs acc w m w' :
  fold_batches FusionRegressor.predict_batch acc bs w = (inr m, w') ->
  exists ms,
    Forall2 (fun '(d, t) l => exists o, FusionRegressor.forward (ens w) d = inr o /\
                                        mse_loss o t = inr l) bs ms /\
    m = fold_left fadd ms acc.
Proof.
  revert acc w; induction bs as [|[d t] bs IH]; intros acc w H; simpl in H.
  - unfold ret in H; injection H as <- _; exists []; split; [constructor | reflexivity].
  - unfold bind in H; destruct (FusionRegressor.predict_batch acc d t w) as [[e1|a] w1] eqn:E;
      [discriminate|].
    apply reg_predict_batch_ok in E; destruct E as (-> & o & l & Ho & Hl & ->).
    destruct (IH _ _ H) as (ms & Hms & ->).
    exists (l :: ms); split; [constructor; eauto | reflexivity].
Qed.

(** C3 (amended). When [FusionRegressor.predict] returns [r], the loader
    yielded at least one batch and [r] is the sum of the per-batch MSE
    values divided by the number of batches. [r] is nan exactly when, on
    some batch, the averaged output or the target has no rows or no
    columns; otherwise [r >= 0], and [r = 0] when on every batch the
    averaged prediction has the shape of its non-empty target and equals it
    entry by entry. *)
Theorem reg_predict_mean_of_batch_mse L w r w' :
  FusionRegressor.predict L w = (inr r, w') ->
  (exists ms,
     Forall2 (fun '(d, t) l => exists o,
                FusionRegressor.forward (ens (eval_world w)) d = inr o /\ mse_loss o t = inr l)
             (batches L) ms /\
     (1 <= length (batches L))%nat /\
     ((In NaN ms /\ r = NaN) \/
      (exists xs, ms = map Num xs /\ r = Num (sumR xs / INR (length (batches L)))))) /\
  (r = NaN <-> exists d t o, In (d, t) (batches L) /\
     FusionRegressor.forward (ens (eval_world w)) d = inr o /\
     (rows o = 0 \/ cols o = 0 \/ rows t = 0 \/ cols t = 0)%nat) /\
  (forall x, r = Num x -> 0 <= x) /\
  ((forall d t, In (d, t) (batches L) -> exists o,
      FusionRegressor.forward (ens (eval_world w)) d = inr o /\
      rows o = rows t /\ cols o = cols t /\ (rows t * cols t <> 0)%nat /\
      forall i j, (i < rows t)%nat -> (j < cols t)%nat -> entry o i j = entry t i j) ->
   r = Num 0).
Proof.
  unfold FusionRegressor.predict; rewrite bind_eval; unfold bind at 1.
  destruct (fold_batches FusionRegressor.predict_batch (Num 0) (batches L) (eval_world w))
    as [[err|m] w1] eqn:E; [discriminate|].
  destruct (Nat.eqb_spec (length (batches L)) 0) as [H0|H0]; [discriminate|].
  intro H; injection H as <- _.
  destruct (reg_fold_ok _ _ _ _ _ E) as (ms & Hms & ->).
  assert (Hcase : (In NaN ms /\ fdiv (fold_left fadd ms (Num 0)) (length (batches L)) = NaN) \/
                  (exists xs, ms = map Num xs /\
                     fdiv (fold_left fadd ms (Num 0)) (length (batches L)) =
                     Num (sumR xs / INR (length (batches L))))).
  { destruct (fold_fadd_cases ms 0) as [[Hin ->] | (xs & Hxs & ->)]; [left; auto|].
    right; exists xs; split; [exact Hxs|]; simpl; rewrite Rplus_0_l; reflexivity. }
  split; [exists ms; split; [exact Hms|]; split; [lia | exact Hcase]|].
  split.
  { split.
    - intro HN; destruct Hcase as [[Hin _] | (xs & -> & Hx)]; [|rewrite Hx in HN; discriminate].
      clear - Hms Hin; induction Hms as [|[d t] l bs ms (o & Ho & Hl) _ IH]; [destruct Hin|].
      destruct Hin as [-> | Hin].
      + exists d, t, o; split; [left; reflexivity|]; split; [exact Ho|].
        apply (mse_loss_nan o t NaN Hl); reflexivity.
      + destruct (IH Hin) as (d' & t' & o' & Hin' & Ho' & Hz).
        exists d', t', o'; split; [right; exact Hin'|]; split; assumption.
    - intros (d & t & o & Hin & Ho & Hz).
      assert (HinN : In NaN ms).
      { clear - Hms Hin Ho Hz; induction Hms as [|[d' t'] l bs ms (o' & Ho' & Hl) _ IH];
          [destruct Hin|].
        destruct Hin as [Heq | Hin].
        - injection Heq as -> ->; rewrite Ho in Ho'; injection Ho' as <-.
          left; apply (mse_loss_nan o t l Hl); exact Hz.
        - right; apply IH; exact Hin. }
      destruct Hcase as [[_ HN] | (xs & -> & _)]; [exact HN|].
      apply in_map_iff in HinN; destruct HinN as (x & Hx & _); discriminate. }
  split.
  { intros x Hx; destruct Hcase as [[_ HN] | (xs & -> & Hr)]; [rewrite HN in Hx; discriminate|].
    rewrite Hr in Hx; injection Hx as <-.
    apply div_nonneg; [|apply pos_INR].
    clear E H0 Hr; revert Hms; generalize (batches L) as bs; induction xs as [|y xs IH];
      intros bs Hms; simpl; [lra|].
    inversion Hms as [|[d t] y' bs' ms' (o & _ & Hl) Hrest]; subst.
    apply mse_loss_nonneg in Hl; specialize (IH _ Hrest); lra. }
  intro Hz.
  assert (Hms0 : ms = map Num (map (fun _ => 0) ms)).
  { clear - Hms Hz; induction Hms as [|[d t] l bs ms (o & Ho & Hl) _ IH]; [reflexivity|].
    destruct (Hz d t (or_introl eq_refl)) as (o' & Ho' & Hr & Hc & Hne & He).
    rewrite Ho in Ho'; injection Ho' as <-.
    rewrite (mse_loss_zero o t Hr Hc Hne He) in Hl; injection Hl as <-.
    simpl; f_equal; apply IH; intros d' t' Hin; apply Hz; right; exact Hin. }
  destruct Hcase as [[Hin _] | (xs & Hxs & ->)].
  - rewrite Hms0 in Hin; apply in_map_iff in Hin; destruct Hin as (x & Hx & _); discriminate.
  - rewrite Hms0 in Hxs.
    assert (Hx : xs = map (fun _ => 0) ms).
    { revert Hxs; generalize (map (fun _ : PyFloat => 0) ms); clear.
      induction xs as [|x xs IH]; intros [|y ys] H; try discriminate; [reflexivity|].
      injection H as -> H; f_equal; apply IH; exact H. }
    assert (Hs : sumR xs = 0).
    { rewrite Hx; clear; induction ms as [|m ms IH]; simpl; [reflexivity|]; rewrite IH; ring. }
    rewrite Hs; f_equal; apply Rdiv_0_l.
Qed.

Lemma reg_predict_mean_of_batch_mse_witness :
  exists r w',
  FusionRegressor.predict demo_reg_test (mkWorld demo_reg_ensemble 0 []) = (inr r, w') /\
  ((exists ms,
     Forall2 (fun '(d, t) l => exists o,
                FusionRegressor.forward (ens (eval_world (mkWorld demo_reg_ensemble 0 []))) d
                  = inr o /\ mse_loss o t = inr l)
             (batches demo_reg_test) ms /\
     (1 <= length (batches demo_reg_test))%nat /\
     ((In NaN ms /\ r = NaN) \/
      (exists xs, ms = map Num xs /\ r = Num (sumR xs / INR (length (batches demo_reg_test)))))) /\
  (r = NaN <-> exists d t o, In (d, t) (batches demo_reg_test) /\
     FusionRegressor.forward (ens (eval_world (mkWorld demo_reg_ensemble 0 []))) d = inr o /\
     (rows o = 0 \/ cols o = 0 \/ rows t = 0 \/ cols t = 0)%nat) /\
  (forall x, r = Num x -> 0 <= x) /\
  ((forall d t, In (d, t) (batches demo_reg_test) -> exists o,
      FusionRegressor.forward (ens (eval_world (mkWorld demo_reg_ensemble 0 []))) d = inr o /\
      rows o = rows t /\ cols o = cols t /\ (rows t * cols t <> 0)%nat /\
      forall i j, (i < rows t)%nat -> (j < cols t)%nat -> entry o i j = entry t i j) ->
   r = Num 0)).
Proof.
  do 2 eexists; split; [reflexivity|].
  eapply reg_predict_mean_of_batch_mse; reflexivity.
Defined.

(** Counterexample to C3: a regressor of [n_outputs = 0] whose output has
    the shape of a zero-width target, so that they agree entry by entry,
    gets nan, neither 0 nor a number [>= 0]. *)
Lemma zero_width_target_gives_nan :
  let w0 := mkWorld (mkEnsemble 1 (Some 0%nat) [] "cpu" false) 0 [] in
  FusionRegressor.forward (ens (eval_world w0)) (zeros 1 1) = inr (zeros 1 0) /\
  fst (FusionRegressor.predict (mkLoader [(zeros 1 1, zeros 1 0)] 1) w0) = inr NaN.
Proof. split; reflexivity. Qed.

(** ** C2: the classifier's [predict] *)

Lemma cls_forward_rows e X o : FusionClassifier.forward e X = inr o -> rows o = rows X.
Proof.
  unfold FusionClassifier.forward, FusionClassifier._forward.
  destruct (n_outputs e) as [n|]; [|discriminate].
  destruct (avg_loop e X (estimators_ e) (zeros (rows X) n)) as [err|T] eqn:H; [discriminate|].
  intro E; injection E as <-; apply avg_loop_shape in H; simpl; apply H.
Qed.

Lemma argmax_rows_length t p : argmax_rows t = inr p -> length p = rows t.
Proof.
  unfold argmax_rows; destruct (_ && _); [discriminate|].
  intro E; injection E as <-; rewrite length_map, length_seq; reflexivity.
Qed.

(** Matching positions of two vectors of one length: at most all of them,
    and all of them exactly when the vectors are equal. *)
Lemma count_eq_same_length p t c :
  length p = length t -> count_eq p t = inr c ->
  (c <= length t)%nat /\ (c = length t <-> p = t).
Proof.
  intros Hl; unfold count_eq; rewrite Hl; unfold bdim; rewrite Nat.eqb_refl.
  intro E; injection E as <-.
  rewrite (filter_ext_in _ (fun i => Nat.eqb (nth i p 0%nat) (nth i t 0%nat)));
    [| intros i Hi; apply in_seq in Hi; rewrite !bidx_lt by lia; reflexivity].
  split; [rewrite <- (length_seq (length t) 0) at 2; apply filter_length_le|].
  split.
  - intro H; rewrite <- (length_seq (length t) 0) in H at 2.
    apply filter_length_forallb in H; rewrite forallb_forall in H.
    apply (nth_ext p t 0%nat 0%nat Hl); intros i Hi.
    apply Nat.eqb_eq, H, in_seq; lia.
  - intros <-; rewrite forallb_filter_id; [apply length_seq|].
    apply forallb_forall; intros i _; apply Nat.eqb_refl.
Qed.

Lemma cls_predict_batch_ok acc d t w a w' :
  FusionClassifier.predict_batch acc d t w = (inr a, w') ->
  w' = w /\ exists o p c, FusionClassifier.forward (ens w) d = inr o /\
    argmax_rows o = inr p /\ count_eq p t = inr c /\ a = fl32_add acc c.
Proof.
  unfold FusionClassifier.predict_batch, bind, get_ens, lift, ret; simpl.
  destruct (FusionClassifier.forward (ens w) d) as [e1|o] eqn:Ho; [discriminate|].
  destruct (argmax_rows o) as [e2|p] eqn:Hp; [discriminate|].
  destruct (count_eq p t) as [e3|c] eqn:Hc; [discriminate|].
  intro E; injection E as <- <-; split; [reflexivity|].
  exists o, p, c; repeat split; assumption.
Qed.

Lemma cls_fold_ok bs acc w m w' :
  fold_batches FusionClassifier.predict_batch acc bs w = (inr m, w') ->
  exists cs,
    Forall2 (fun '(d, t) c => exists o p, FusionClassifier.forward (ens w) d = inr o /\
               argmax_rows o = inr p /\ count_eq p t = inr c) bs cs /\
    m = fold_left fl32_add cs acc.
Proof.
  revert acc w; induction bs as [|[d t] bs IH]; intros acc w H; simpl in H.
  - unfold ret in H; injection H as <- _; exists []; split; [constructor | reflexivity].
  - unfold bind in H;
      destruct (FusionClassifier.predict_batch acc d t w) as [[e1|a] w1] eqn:E; [discriminate|].
    apply cls_predict_batch_ok in E; destruct E as (-> & o & p & c & Ho & Hp & Hc & ->).
    destruct (IH _ _ H) as (cs & Hcs & ->).
    exists (c :: cs); split; [constructor; eauto | reflexivity].
Qed.

Lemma cls_predict_batch_step acc d t w :
  FusionClassifier.predict_batch acc d t w =
  (match cls_batch_result w d t with inl err => inl err | inr c => inr (fl32_add acc c) end, w).
Proof.
  unfold FusionClassifier.predict_batch, cls_batch_result, bind, get_ens, lift, ret, sum_bind.
  destruct (FusionClassifier.forward (ens w) d) as [|o]; [reflexivity|].
  destruct (argmax_rows o) as [|p]; [reflexivity|].
  destruct (count_eq p t); reflexivity.
Qed.

(** When every batch evaluates, the loop runs to its end. *)
Lemma cls_fold_total bs acc w :
  (forall d t, In (d, t) bs -> exists c, cls_batch_result w d t = inr c) ->
  exists m, fold_batches FusionClassifier.predict_batch acc bs w = (inr m, w).
Proof.
  revert acc; induction bs as [|[d t] bs IH]; intros acc H; [eexists; reflexivity|].
  destruct (H d t (or_introl eq_refl)) as [c Hc].
  cbn [fold_batches]; unfold bind at 1; rewrite cls_predict_batch_step, Hc; cbv beta iota.
  apply IH; intros d' t' Hin; apply H; right; exact Hin.
Qed.

(** Integers up to [2^24] are float32 values. *)
Lemma fl32_int_small z : (0 <= z <= 2 ^ 24)%Z -> fl32_int z = z.
Proof.
  intro Hz; unfold fl32_int; cbv zeta.
  destruct (Z.leb_spec (Z.log2 z - 23) 0) as [_|Hl]; [reflexivity|].
  assert (Hz0 : (0 < z)%Z).
  { destruct (Z.le_gt_cases z 0) as [H|H]; [|exact H].
    rewrite Z.log2_nonpos in Hl by exact H; lia. }
  destruct (Z.log2_spec z Hz0) as [Hlo _].
  assert (H24 : (2 ^ 24 <= 2 ^ Z.log2 z)%Z) by (apply Z.pow_le_mono_r; lia).
  assert (z = 2 ^ 24)%Z as -> by lia; reflexivity.
Qed.

(** Below [2^24], the float32 count is the exact count. *)
Lemma fold_fl32_exact cs acc :
  (0 <= acc)%Z -> (acc + Z.of_nat (list_sum cs) <= 2 ^ 24)%Z ->
  fold_left fl32_add cs acc = (acc + Z.of_nat (list_sum cs))%Z.
Proof.
  revert acc; induction cs as [|c cs IH]; intros acc H0 H; simpl; [lia|].
  simpl in H; unfold fl32_add.
  rewrite (fl32_int_small (Z.of_nat c)) by lia.
  rewrite (fl32_int_small (acc + Z.of_nat c)) by lia.
  rewrite IH by lia; lia.
Qed.

(** Over all batches: the matches are at most the examples yielded, and all
    of them exactly when every predicted class is its target. *)
Lemma cls_total_matches e bs cs :
  Forall2 (fun '(d, t) c => exists o p, FusionClassifier.forward e d = inr o /\
             argmax_rows o = inr p /\ count_eq p t = inr c) bs cs ->
  (forall d t, In (d, t) bs -> length t = rows d) ->
  (list_sum cs <= list_sum (map (fun '(d, _) => rows d) bs))%nat /\
  (list_sum cs = list_sum (map (fun '(d, _) => rows d) bs) <->
   forall d t, In (d, t) bs -> exists o, FusionClassifier.forward e d = inr o /\
                                         argmax_rows o = inr t).
Proof.
  induction 1 as [|[d t] c bs cs (o & p & Ho & Hp & Hc) _ IH]; intro Hlen; simpl.
  - split; [lia|]; split; [intros _ d t []|reflexivity].
  - assert (Hpt : length p = length t).
    { rewrite (argmax_rows_length _ _ Hp), (cls_forward_rows _ _ _ Ho).
      symmetry; apply Hlen; left; reflexivity. }
    destruct (count_eq_same_length p t c Hpt Hc) as [Hle Hiff].
    rewrite (Hlen d t (or_introl eq_refl)) in Hle, Hiff.
    destruct (IH (fun d' t' H => Hlen d' t' (or_intror H))) as [Hle' Hiff'].
    split; [lia|]; split.
    + intros Hsum d' t' [Heq | Hin].
      * injection Heq as <- <-; exists o; split; [exact Ho|].
        rewrite Hp; f_equal; apply Hiff; lia.
      * apply Hiff'; [lia | exact Hin].
    + intro Hall.
      destruct (Hall d t (or_introl eq_refl)) as (o' & Ho' & Hp').
      rewrite Ho in Ho'; injection Ho' as <-; rewrite Hp in Hp'; injection Hp' as Hpt'.
      assert (c = rows d) by (apply Hiff; exact Hpt').
      assert (list_sum cs = list_sum (map (fun '(d, _) => rows d) bs))
        by (apply Hiff'; intros; apply Hall; right; assumption).
      lia.
Qed.

(** C2 (amended): when [FusionClassifier.predict] returns [r], the dataset
    is not empty and [r] is 100 times the float32 accumulation of the
    per-batch numbers of matching arg-max predictions, over the batches the
    loader yields, divided by the length of the loader's dataset; on an
    empty dataset whose batches all evaluate it raises [ZeroDivisionError].
    When each target batch has one label per example, the yielded examples
    number [len(dataset)] and that length is at most [2^24] (so that the
    float32 count is exact), [r] is 100 times the number of matches over
    [len(dataset)], lies in [0, 100], and equals 100 exactly when every
    predicted class equals its target in every batch. *)
Theorem cls_predict_accuracy (L : Loader (list nat)) w :
  (forall r w', FusionClassifier.predict L w = (inr r, w') ->
     dataset_len L <> 0%nat /\
     exists cs,
       Forall2 (fun '(d, t) c => exists o p,
                  FusionClassifier.forward (ens (eval_world w)) d = inr o /\
                  argmax_rows o = inr p /\ count_eq p t = inr c) (batches L) cs /\
       r = 100 * IZR (fold_left fl32_add cs 0%Z) / INR (dataset_len L)) /\
  (dataset_len L = 0%nat ->
   (forall d t, In (d, t) (batches L) -> exists c, cls_batch_result (eval_world w) d t = inr c) ->
   fst (FusionClassifier.predict L w) = inl ZeroDivisionError) /\
  ((forall d t, In (d, t) (batches L) -> length t = rows d) ->
   list_sum (map (fun '(d, _) => rows d) (batches L)) = dataset_len L ->
   (Z.of_nat (dataset_len L) <= 2 ^ 24)%Z ->
   forall r w', FusionClassifier.predict L w = (inr r, w') ->
   (exists cs,
      Forall2 (fun '(d, t) c => exists o p,
                 FusionClassifier.forward (ens (eval_world w)) d = inr o /\
                 argmax_rows o = inr p /\ count_eq p t = inr c) (batches L) cs /\
      r = 100 * INR (list_sum cs) / INR (dataset_len L)) /\
   0 <= r <= 100 /\
   (r = 100 <-> forall d t, In (d, t) (batches L) ->
      exists o, FusionClassifier.forward (ens (eval_world w)) d = inr o /\
                argmax_rows o = inr t)).
Proof.
  split; [|split].
  - intros r w' H.
    unfold FusionClassifier.predict in H; rewrite bind_eval in H; unfold bind at 1 in H.
    destruct (fold_batches FusionClassifier.predict_batch 0%Z (batches L) (eval_world w))
      as [[err|m] w1] eqn:E; [discriminate|].
    destruct (Nat.eqb (dataset_len L) 0) eqn:Hz; [discriminate|].
    unfold ret in H; injection H as <- _.
    apply Nat.eqb_neq in Hz; split; [exact Hz|].
    destruct (cls_fold_ok _ _ _ _ _ E) as (cs & Hcs & ->).
    exists cs; split; [exact Hcs | reflexivity].
  - intros H0 Hall.
    destruct (cls_fold_total _ 0%Z _ Hall) as [m E].
    unfold FusionClassifier.predict; rewrite bind_eval; unfold bind at 1.
    rewrite E, H0; reflexivity.
  - intros Hlen Htot Hbig r w' H.
    unfold FusionClassifier.predict in H; rewrite bind_eval in H; unfold bind at 1 in H.
    destruct (fold_batches FusionClassifier.predict_batch 0%Z (batches L) (eval_world w))
      as [[err|m] w1] eqn:E; [discriminate|].
    destruct (Nat.eqb (dataset_len L) 0) eqn:Hz; [discriminate|].
    unfold ret in H; injection H as <- _.
    apply Nat.eqb_neq in Hz.
    destruct (cls_fold_ok _ _ _ _ _ E) as (cs & Hcs & ->).
    destruct (cls_total_matches _ _ _ Hcs Hlen) as [Hle Hiff].
    rewrite Htot in Hle, Hiff.
    rewrite fold_fl32_exact by lia; rewrite Z.add_0_l, <- INR_IZR_INZ.
    assert (HN : 0 < INR (dataset_len L)) by (apply lt_0_INR; lia).
    assert (HS : INR (list_sum cs) <= INR (dataset_len L)) by (apply le_INR; exact Hle).
    assert (HS0 : 0 <= INR (list_sum cs)) by apply pos_INR.
    set (q := 100 * INR (list_sum cs) / INR (dataset_len L)).
    assert (Hq : q * INR (dataset_len L) = 100 * INR (list_sum cs)) by (unfold q; field; lra).
    split; [exists cs; split; [exact Hcs | reflexivity]|].
    split; [split; nra|].
    rewrite <- Hiff; split.
    + intro Hq100; apply INR_eq; rewrite Hq100 in Hq; lra.
    + intro Heq; rewrite Heq in Hq.
      apply (Rmult_eq_reg_r (INR (dataset_len L))); lra.
Qed.

(** Witness for C2: a one-example loader predicted correctly scores 100. *)
Lemma cls_predict_accuracy_witness :
  (forall d t, In (d, t) (batches demo_cls_loader) -> length t = rows d) /\
  list_sum (map (fun '(d, _) => rows d) (batches demo_cls_loader)) = dataset_len demo_cls_loader /\
  (Z.of_nat (dataset_len demo_cls_loader) <= 2 ^ 24)%Z /\
  exists r w', FusionClassifier.predict demo_cls_loader (mkWorld demo_cls_one 0 []) = (inr r, w') /\
  ((exists cs,
     Forall2 (fun '(d, t) c => exists o p,
                FusionClassifier.forward (ens (eval_world (mkWorld demo_cls_one 0 []))) d = inr o /\
                argmax_rows o = inr p /\ count_eq p t = inr c) (batches demo_cls_loader) cs /\
     r = 100 * INR (list_sum cs) / INR (dataset_len demo_cls_loader)) /\
  0 <= r <= 100 /\
  (r = 100 <-> forall d t, In (d, t) (batches demo_cls_loader) ->
     exists o, FusionClassifier.forward (ens (eval_world (mkWorld demo_cls_one 0 []))) d = inr o /\
               argmax_rows o = inr t)).
Proof.
  split; [intros d t [H | []]; injection H as <- <-; reflexivity|].
  split; [reflexivity|].
  split; [simpl; lia|].
  do 2 eexists; split; [reflexivity|].
  eapply (proj2 (proj2 (cls_predict_accuracy demo_cls_loader (mkWorld demo_cls_one 0 []))));
    [intros d t [H | []]; injection H as <- <-; reflexivity
    | reflexivity | simpl; lia | reflexivity].
Defined.

(** Counterexample to C2: with [drop_last=True] the loader yields two of
    the dataset's three examples; both are predicted correctly, yet the
    accuracy is 200/3, not 100. *)
Lemma drop_last_accuracy_below_100 :
  fst (FusionClassifier.predict drop_last_loader (mkWorld demo_cls_one 0 [])) = inr (200 / 3) /\
  (forall d t, In (d, t) (batches drop_last_loader) ->
     exists o, FusionClassifier.forward (ens (eval_world (mkWorld demo_cls_one 0 []))) d = inr o /\
               argmax_rows o = inr t) /\
  200 / 3 <> 100.
Proof.
  split; [|split; [|lra]].
  - transitivity (@inr PyError R (100 * IZR 2 / INR 3)); [reflexivity|].
    f_equal; simpl; field.
  - intros d t [H | []]; injection H as <- <-.
    eexists; split; reflexivity.
Qed.

(** ** The status lines of [fit] *)

Lemma keeps_stdout_modify g : keeps stdout (modify_ens g).
Proof. intro w; reflexivity. Qed.

Lemma keeps_stdout_append env k : keeps stdout (append_estimators env k).
Proof.
  induction k as [|k IH]; simpl; keeps_tac; auto using keeps_stdout_modify.
  intro w; reflexivity.
Qed.

Lemma prints_sched_keeps {A} (m : M A) : keeps stdout m -> prints_sched [] m.
Proof.
  intros H w; exists []; rewrite app_nil_r; split; [apply H|].
  split; [exists []; reflexivity | reflexivity].
Qed.

Lemma prints_sched_bind {A C} s1 s2 (m : M A) (k : A -> M C) :
  prints_sched s1 m -> (forall a, prints_sched s2 (k a)) -> prints_sched (s1 ++ s2) (bind m k).
Proof.
  intros Hm Hk w; unfold bind.
  destruct (Hm w) as (n1 & H1 & [r1 P1] & E1).
  destruct (m w) as [[err | a] w1]; simpl in *.
  - exists n1; split; [exact H1|]; split; [|intros b Hb; discriminate].
    exists (r1 ++ s2); rewrite app_assoc, P1; reflexivity.
  - specialize (E1 a eq_refl).
    destruct (Hk a w1) as (n2 & H2 & [r2 P2] & E2).
    exists (n1 ++ n2); split; [rewrite H2, H1, app_assoc; reflexivity|].
    split; [exists r2; rewrite map_app, <- app_assoc, P2, E1; reflexivity|].
    intros b Hb; rewrite map_app, E1, (E2 b Hb); reflexivity.
Qed.

Lemma prints_sched_bind0 {A C} s (m : M A) (k : A -> M C) :
  prints_sched [] m -> (forall a, prints_sched s (k a)) -> prints_sched s (bind m k).
Proof. intros; apply (prints_sched_bind [] s); assumption. Qed.

Lemma prints_sched_print l s : s = [log_key l] -> prints_sched s (print l).
Proof.
  intros -> w; exists [l]; split; [reflexivity|].
  split; [exists []; reflexivity | reflexivity].
Qed.

Lemma prints_sched_for_batches {T} (body : nat -> Tensor -> T -> M unit)
      (f : nat -> list (nat * nat)) :
  (forall i d t, prints_sched (f i) (body i d t)) ->
  forall bs idx, prints_sched (flat_map f (seq idx (length bs))) (for_batches body idx bs).
Proof.
  intros Hb bs; induction bs as [|[d t] bs IH]; intro idx; simpl.
  - apply prints_sched_keeps, keeps_ret.
  - apply prints_sched_bind; auto.
Qed.

Lemma prints_sched_for_range (body : nat -> M unit) (g : nat -> list (nat * nat)) :
  (forall i, prints_sched (g i) (body i)) ->
  forall count start, prints_sched (flat_map g (seq start count)) (for_range body start count).
Proof.
  intros Hb count; induction count as [|c IH]; intro start; simpl.
  - apply prints_sched_keeps, keeps_ret.
  - apply prints_sched_bind; auto.
Qed.

(** A step that does not print. *)
Ltac quiet_step :=
  apply prints_sched_bind0;
  [ apply prints_sched_keeps;
    first [ apply keeps_get_ens | apply keeps_lift | apply keeps_stdout_modify
          | apply keeps_stdout_append ]
  | intro ].

Lemma cls_train_batch_prints env opt li ep i d t :
  prints_sched (if log_due i li then [(ep, i)] else [])
               (FusionClassifier.train_batch env opt li ep i d t).
Proof.
  unfold FusionClassifier.train_batch; cbv zeta.
  do 4 quiet_step.
  destruct (log_due i li).
  - do 2 quiet_step; apply prints_sched_print; reflexivity.
  - apply prints_sched_keeps, keeps_ret.
Qed.

Lemma reg_train_batch_prints env opt li ep i d t :
  prints_sched (if log_due i li then [(ep, i)] else [])
               (FusionRegressor.train_batch env opt li ep i d t).
Proof.
  unfold FusionRegressor.train_batch.
  do 4 quiet_step.
  destruct (log_due i li).
  - apply prints_sched_print; reflexivity.
  - apply prints_sched_keeps, keeps_ret.
Qed.

Lemma cls_fit_prints env L lr wd ep kind li :
  prints_sched (log_schedule (Z.to_nat ep) (length (batches L)) li)
               (FusionClassifier.fit env L lr wd ep kind li).
Proof.
  unfold FusionClassifier.fit, train, log_schedule.
  do 7 quiet_step.
  apply prints_sched_for_range; intro epoch.
  apply prints_sched_for_batches; intros; apply cls_train_batch_prints.
Qed.

Lemma reg_fit_prints env L lr wd ep kind li :
  prints_sched (log_schedule (Z.to_nat ep) (length (batches L)) li)
               (FusionRegressor.fit env L lr wd ep kind li).
Proof.
  unfold FusionRegressor.fit, train, log_schedule.
  do 7 quiet_step.
  apply prints_sched_for_range; intro epoch.
  apply prints_sched_for_batches; intros; apply reg_train_batch_prints.
Qed.

(** With a positive interval, [log_due] is the remainder test on [nat]. *)
Lemma log_due_mod i li : (0 < li)%Z -> log_due i li = Nat.eqb (i mod Z.to_nat li) 0.
Proof.
  intro H; unfold log_due.
  rewrite <- (Z2Nat.id li) at 1 by lia; rewrite <- Nat2Z.inj_mod.
  destruct (i mod Z.to_nat li); reflexivity.
Qed.

Lemma ceil_div_step nb L :
  (0 < L)%nat ->
  ((nb + L) / L = (nb + L - 1) / L + (if Nat.eqb (nb mod L) 0 then 1 else 0))%nat.
Proof.
  intro HL.
  pose proof (Nat.div_mod nb L ltac:(lia)) as Hd.
  pose proof (Nat.mod_upper_bound nb L ltac:(lia)) as Hm.
  set (q := (nb / L)%nat) in *; set (r := (nb mod L)%nat) in *.
  rewrite <- (Nat.div_unique (nb + L) L (q + 1) r) by nia.
  destruct (Nat.eqb_spec r 0) as [Hr|Hr].
  - rewrite <- (Nat.div_unique (nb + L - 1) L q (L - 1)) by nia; lia.
  - rewrite <- (Nat.div_unique (nb + L - 1) L (q + 1) (r - 1)) by nia; lia.
Qed.

(** One epoch prints [ceil(nb / log_interval)] lines. *)
Lemma epoch_line_count (ep : nat) nb li :
  (0 < li)%Z ->
  length (flat_map (fun i => if log_due i li then [(ep, i)] else []) (seq 0 nb)) =
  ((nb + Z.to_nat li - 1) / Z.to_nat li)%nat.
Proof.
  intro Hli; assert (HL : (0 < Z.to_nat li)%nat) by lia.
  induction nb as [|nb IH].
  - simpl; rewrite Nat.div_small by lia; reflexivity.
  - rewrite seq_S, flat_map_app, length_app, IH; simpl (flat_map _ [_]).
    replace (S nb + Z.to_nat li - 1)%nat with (nb + Z.to_nat li)%nat by lia.
    rewrite ceil_div_step by exact HL; rewrite log_due_mod by exact Hli.
    destruct (nb mod Z.to_nat li =? 0)%nat; simpl; lia.
Qed.

Lemma flat_map_length_const {A B} (g : A -> list B) c l :
  (forall x, length (g x) = c) -> length (flat_map g l) = (length l * c)%nat.
Proof.
  intro Hg; induction l as [|x l IH]; simpl; [reflexivity|].
  rewrite length_app, Hg, IH; reflexivity.
Qed.

Lemma log_schedule_length epochs nb li :
  (0 < li)%Z ->
  length (log_schedule epochs nb li) =
  (epochs * ((nb + Z.to_nat li - 1) / Z.to_nat li))%nat.
Proof.
  intro Hli; unfold log_schedule.
  rewrite (flat_map_length_const _ ((nb + Z.to_nat li - 1) / Z.to_nat li)).
  - rewrite length_seq; reflexivity.
  - intro ep; apply epoch_line_count, Hli.
Qed.

(** ** Extra properties *)

(** X1. Whatever its outcome, [fit] of either ensemble only appends to
    stdout, and the lines it appends report, in order, a prefix of the
    schedule [(epoch, batch_idx)] for [epoch] in [range(epochs)] and
    [batch_idx] in [range(len(train_loader))] with
    [batch_idx % log_interval == 0]; when [fit] returns normally it has
    printed exactly that schedule. *)
Theorem fit_log_schedule env lr wd ep kind li w :
  (forall L : Loader (list nat), exists new : list LogLine,
     stdout (snd (FusionClassifier.fit env L lr wd ep kind li w)) = stdout w ++ new /\
     (exists rest, map log_key new ++ rest = log_schedule (Z.to_nat ep) (length (batches L)) li) /\
     (fst (FusionClassifier.fit env L lr wd ep kind li w) = inr tt ->
      map log_key new = log_schedule (Z.to_nat ep) (length (batches L)) li)) /\
  (forall L : Loader Tensor, exists new : list LogLine,
     stdout (snd (FusionRegressor.fit env L lr wd ep kind li w)) = stdout w ++ new /\
     (exists rest, map log_key new ++ rest = log_schedule (Z.to_nat ep) (length (batches L)) li) /\
     (fst (FusionRegressor.fit env L lr wd ep kind li w) = inr tt ->
      map log_key new = log_schedule (Z.to_nat ep) (length (batches L)) li)).
Proof.
  split; intro L.
  - destruct (cls_fit_prints env L lr wd ep kind li w) as (new & H1 & H2 & H3).
    exists new; split; [exact H1|]; split; [exact H2 | exact (H3 tt)].
  - destruct (reg_fit_prints env L lr wd ep kind li w) as (new & H1 & H2 & H3).
    exists new; split; [exact H1|]; split; [exact H2 | exact (H3 tt)].
Qed.

(** X2. With [log_interval >= 1], a [fit] of either ensemble that returns
    normally prints exactly [epochs * ceil(len(train_loader) / log_interval)]
    status lines. *)
Theorem fit_status_line_count env lr wd ep kind li :
  (0 < li)%Z ->
  (forall (L : Loader (list nat)) w w',
     FusionClassifier.fit env L lr wd ep kind li w = (inr tt, w') ->
     length (stdout w') =
     (length (stdout w) + Z.to_nat ep * ((length (batches L) + Z.to_nat li - 1) / Z.to_nat li))%nat) /\
  (forall (L : Loader Tensor) w w',
     FusionRegressor.fit env L lr wd ep kind li w = (inr tt, w') ->
     length (stdout w') =
     (length (stdout w) + Z.to_nat ep * ((length (batches L) + Z.to_nat li - 1) / Z.to_nat li))%nat).
Proof.
  intro Hli; split; intros L w w' E.
  - destruct (cls_fit_prints env L lr wd ep kind li w) as (new & H1 & _ & H3).
    rewrite E in H1, H3; simpl in H1, H3.
    rewrite H1, length_app, <- (length_map log_key new), (H3 tt eq_refl), log_schedule_length
      by exact Hli; reflexivity.
  - destruct (reg_fit_prints env L lr wd ep kind li w) as (new & H1 & _ & H3).
    rewrite E in H1, H3; simpl in H1, H3.
    rewrite H1, length_app, <- (length_map log_key new), (H3 tt eq_refl), log_schedule_length
      by exact Hli; reflexivity.
Qed.

(** Witness for X2: three epochs over a one-batch loader with
    [log_interval = 1] succeed and print three lines. *)
Lemma fit_status_line_count_witness :
  (0 < 1)%Z /\
  fst (FusionClassifier.fit demo_env demo_cls_loader 1 0 3 "Adam" 1 demo_world) = inr tt /\
  length (stdout (snd (FusionClassifier.fit demo_env demo_cls_loader 1 0 3 "Adam" 1 demo_world)))
    = 3%nat /\
  fst (FusionRegressor.fit demo_env demo_reg_loader 1 0 3 "Adam" 1 demo_world) = inr tt /\
  length (stdout (snd (FusionRegressor.fit demo_env demo_reg_loader 1 0 3 "Adam" 1 demo_world)))
    = 3%nat.
Proof.
  assert (Hc : fst (FusionClassifier.fit demo_env demo_cls_loader 1 0 3 "Adam" 1 demo_world)
               = inr tt).
  { unfold FusionClassifier.fit, _validate_parameters.
    rewrite set_optimizer_supported by (simpl; auto; lra).
    destruct (Rle_dec 1 0) as [h|_]; [lra|]; destruct (Rlt_dec 0 0) as [h|_]; [lra|].
    cbv -[Rplus Rmult Rinv Ropp exp ln INR IZR Rdiv Rminus Rsqr]; reflexivity. }
  assert (Hr : fst (FusionRegressor.fit demo_env demo_reg_loader 1 0 3 "Adam" 1 demo_world)
               = inr tt).
  { unfold FusionRegressor.fit, _validate_parameters.
    rewrite set_optimizer_supported by (simpl; auto; lra).
    destruct (Rle_dec 1 0) as [h|_]; [lra|]; destruct (Rlt_dec 0 0) as [h|_]; [lra|].
    cbv -[Rplus Rmult Rinv Ropp exp ln INR IZR Rdiv Rminus Rsqr]; reflexivity. }
  destruct (fit_status_line_count demo_env 1 0 3 "Adam" 1 ltac:(lia)) as [Hcls Hreg].
  split; [lia|]; split; [exact Hc|]; split.
  - apply (Hcls demo_cls_loader demo_world); rewrite <- Hc; apply surjective_pairing.
  - split; [exact Hr|].
    apply (Hreg demo_reg_loader demo_world); rewrite <- Hr; apply surjective_pairing.
Defined.

(** ** What the status lines report *)

Lemma prints_only_keeps {A} P (m : M A) : keeps stdout m -> prints_only P m.
Proof. intros H w; exists []; rewrite app_nil_r; split; [apply H | constructor]. Qed.

Lemma prints_only_bind {A C} P (m : M A) (k : A -> M C) :
  prints_only P m -> (forall a, prints_only P (k a)) -> prints_only P (bind m k).
Proof.
  intros Hm Hk w; unfold bind.
  destruct (Hm w) as (n1 & H1 & F1).
  destruct (m w) as [[err | a] w1]; simpl in *; [exists n1; auto|].
  destruct (Hk a w1) as (n2 & H2 & F2).
  exists (n1 ++ n2); split; [rewrite H2, H1, app_assoc; reflexivity | apply Forall_app; auto].
Qed.

(** After [lift r], only the value [r] holds matters. *)
Lemma prints_only_lift {A C} P (r : PyError + A) (k : A -> M C) :
  (forall a, r = inr a -> prints_only P (k a)) -> prints_only P (bind (lift r) k).
Proof.
  intros Hk w; unfold bind, lift.
  destruct r as [err | a]; [exists []; rewrite app_nil_r; split; [reflexivity | constructor]|].
  apply (Hk a eq_refl).
Qed.

Lemma prints_only_print P l : P l -> prints_only P (print l).
Proof. intros H w; exists [l]; split; [reflexivity | constructor; [exact H | constructor]]. Qed.

Lemma prints_only_for_batches {T} P (body : nat -> Tensor -> T -> M unit) :
  forall bs idx,
  (forall k d t, nth_error bs k = Some (d, t) -> prints_only P (body (idx + k)%nat d t)) ->
  prints_only P (for_batches body idx bs).
Proof.
  intro bs; induction bs as [|[d t] bs IH]; intros idx Hb; simpl.
  - apply prints_only_keeps, keeps_ret.
  - apply prints_only_bind.
    + specialize (Hb 0%nat d t eq_refl); rewrite Nat.add_0_r in Hb; exact Hb.
    + intros _; apply IH; intros k d' t' Hk.
      replace (S idx + k)%nat with (idx + S k)%nat by lia; apply (Hb (S k)); exact Hk.
Qed.

Lemma prints_only_for_range P (body : nat -> M unit) :
  (forall i, prints_only P (body i)) -> forall count start, prints_only P (for_range body start count).
Proof.
  intros Hb count; induction count as [|c IH]; intro start; simpl.
  - apply prints_only_keeps, keeps_ret.
  - apply prints_only_bind; auto.
Qed.

(** A step of [fit] before its training loop. *)
Ltac quiet_only :=
  first [ apply prints_only_lift; intros ? _
        | apply prints_only_bind;
          [ apply prints_only_keeps;
            first [ apply keeps_get_ens | apply keeps_stdout_modify | apply keeps_stdout_append ]
          | intro ] ].

Lemma sum_upto_ge_term f n j :
  (forall k, 0 <= f k) -> (j < n)%nat -> f j <= sum_upto f n.
Proof.
  intros Hf Hj; induction n as [|n IH]; [lia|]; simpl.
  destruct (Nat.eq_dec j n) as [->|Hne].
  - pose proof (sum_upto_nonneg f n Hf); lra.
  - specialize (Hf n); assert (f j <= sum_upto f n) by (apply IH; lia); lra.
Qed.

Lemma sum_upto_nonpos f n : (forall k, (k < n)%nat -> f k <= 0) -> sum_upto f n <= 0.
Proof.
  intro Hf; induction n as [|n IH]; simpl; [lra|].
  assert (sum_upto f n <= 0) by (apply IH; intros; apply Hf; lia).
  specialize (Hf n ltac:(lia)); lra.
Qed.

(** A softmax probability is in [(0, 1]], so its logarithm is at most 0. *)
Lemma ln_softmax_nonpos o i k :
  (k < cols o)%nat -> ln (entry (softmax_rows o) i k) <= 0.
Proof.
  intro Hk; simpl.
  set (S := sum_upto (fun k0 => exp (entry o i k0)) (cols o)).
  assert (HS : exp (entry o i k) <= S)
    by (apply (sum_upto_ge_term (fun k0 => exp (entry o i k0)));
        [intro; apply Rlt_le, exp_pos | exact Hk]).
  pose proof (exp_pos (entry o i k)) as He.
  assert (Hp1 : exp (entry o i k) / S <= 1).
  { apply Rmult_le_reg_r with S; [lra|].
    unfold Rdiv; rewrite Rmult_assoc, Rinv_l by lra; lra. }
  assert (Hp0 : 0 < exp (entry o i k) / S) by (apply Rdiv_lt_0_compat; lra).
  destruct (Rle_lt_or_eq_dec _ _ Hp1) as [Hlt|Heq].
  - rewrite <- ln_1; apply Rlt_le, ln_increasing; assumption.
  - rewrite Heq, ln_1; lra.
Qed.

Lemma cross_entropy_nonneg o t l : cross_entropy o t = inr l -> 0 <= l.
Proof.
  unfold cross_entropy.
  destruct (negb (length t =? rows o)%nat) eqn:H1; [discriminate|].
  destruct (existsb (fun k => (cols o <=? k)%nat) t) eqn:H2; [discriminate|].
  intro E; injection E as <-.
  apply negb_false_iff, Nat.eqb_eq in H1.
  assert (Hs : sum_upto (fun i => ln (entry (softmax_rows o) i (nth i t 0%nat))) (rows o) <= 0).
  { apply sum_upto_nonpos; intros i Hi; apply ln_softmax_nonpos.
    destruct (Nat.leb_spec (cols o) (nth i t 0%nat)) as [Hle|Hlt]; [|exact Hlt].
    assert (existsb (fun k => (cols o <=? k)%nat) t = true)
      by (apply existsb_exists; exists (nth i t 0%nat);
          split; [apply nth_In; lia | apply Nat.leb_le; exact Hle]).
    congruence. }
  replace (- sum_upto (fun i => ln (entry (softmax_rows o) i (nth i t 0%nat))) (rows o)
           / INR (rows o))
    with ((- sum_upto (fun i => ln (entry (softmax_rows o) i (nth i t 0%nat))) (rows o))
           / INR (rows o)) by (unfold Rdiv; ring).
  apply div_nonneg; [simpl in Hs; lra | apply pos_INR].
Qed.

Lemma cross_entropy_length o t l : cross_entropy o t = inr l -> length t = rows o.
Proof.
  unfold cross_entropy; destruct (negb (length t =? rows o)%nat) eqn:H1; [discriminate|].
  intros _; apply negb_false_iff, Nat.eqb_eq in H1; exact H1.
Qed.

Lemma cls__forward_rows e X o : FusionClassifier._forward e X = inr o -> rows o = rows X.
Proof.
  unfold FusionClassifier._forward; destruct (n_outputs e) as [n|]; [|discriminate].
  intro H; apply avg_loop_shape in H; apply H.
Qed.

Lemma cls_train_batch_lines env opt li ep (L : Loader (list nat)) k d t :
  nth_error (batches L) k = Some (d, t) ->
  prints_only (fun l => (exists x, log_loss l = Num x /\ 0 <= x) /\
                 exists correct data target, log_correct l = Some (correct, rows data) /\
                   nth_error (batches L) (log_batch l) = Some (data, target) /\
                   (correct <= rows data)%nat)
              (FusionClassifier.train_batch env opt li ep k d t).
Proof.
  intro Hk; unfold FusionClassifier.train_batch; cbv zeta.
  apply prints_only_bind; [apply prints_only_keeps, keeps_get_ens | intro e].
  apply prints_only_lift; intros o Ho.
  apply prints_only_lift; intros loss Hl.
  apply prints_only_bind; [apply prints_only_keeps, keeps_stdout_modify | intros _].
  destruct (log_due k li); [|apply prints_only_keeps, keeps_ret].
  apply prints_only_lift; intros p Hp.
  apply prints_only_lift; intros c Hc.
  apply prints_only_print; simpl.
  split; [exists loss; split; [reflexivity | exact (cross_entropy_nonneg _ _ _ Hl)]|].
  exists c, d, t; split; [reflexivity|]; split; [exact Hk|].
  pose proof (cross_entropy_length _ _ _ Hl) as Ht.
  pose proof (argmax_rows_length _ _ Hp) as Hpl.
  pose proof (cls__forward_rows _ _ _ Ho) as Hor.
  destruct (count_eq_same_length p t c ltac:(congruence) Hc) as [Hle _]; lia.
Qed.

Lemma reg_train_batch_lines env opt li ep k d t :
  prints_only (fun l => (log_loss l = NaN \/ exists x, log_loss l = Num x /\ 0 <= x) /\
                         log_correct l = None)
              (FusionRegressor.train_batch env opt li ep k d t).
Proof.
  unfold FusionRegressor.train_batch.
  apply prints_only_bind; [apply prints_only_keeps, keeps_get_ens | intro e].
  apply prints_only_lift; intros o Ho.
  apply prints_only_lift; intros loss Hl.
  apply prints_only_bind; [apply prints_only_keeps, keeps_stdout_modify | intros _].
  destruct (log_due k li); [|apply prints_only_keeps, keeps_ret].
  apply prints_only_print; simpl.
  split; [|reflexivity].
  destruct loss as [x|]; [right; exists x; split; [reflexivity | exact (mse_loss_nonneg _ _ _ Hl)]
                        | left; reflexivity].
Qed.

(** X3. Whatever its outcome, [FusionClassifier.fit] only appends to stdout,
    and every status line it prints reports a loss [>= 0] and
    [Correct: c/b], where [b] is the size of the training batch whose index
    the line reports and [c <= b]. *)
Theorem cls_fit_status_lines env L lr wd ep kind li w :
  exists new : list LogLine,
    stdout (snd (FusionClassifier.fit env L lr wd ep kind li w)) = stdout w ++ new /\
    Forall (fun l => (exists x, log_loss l = Num x /\ 0 <= x) /\
              exists correct data target, log_correct l = Some (correct, rows data) /\
                nth_error (batches L) (log_batch l) = Some (data, target) /\
                (correct <= rows data)%nat) new.
Proof.
  revert w; change (prints_only (fun l => (exists x, log_loss l = Num x /\ 0 <= x) /\
              exists correct data target, log_correct l = Some (correct, rows data) /\
                nth_error (batches L) (log_batch l) = Some (data, target) /\
                (correct <= rows data)%nat) (FusionClassifier.fit env L lr wd ep kind li)).
  unfold FusionClassifier.fit, train.
  do 7 quiet_only.
  apply prints_only_for_range; intro epoch.
  apply prints_only_for_batches; intros k d t Hk; apply cls_train_batch_lines, Hk.
Qed.

(** X4. Whatever its outcome, [FusionRegressor.fit] only appends to stdout,
    and every status line it prints reports a loss that is nan or a number
    [>= 0], and no [Correct] count. *)
Theorem reg_fit_status_lines env L lr wd ep kind li w :
  exists new : list LogLine,
    stdout (snd (FusionRegressor.fit env L lr wd ep kind li w)) = stdout w ++ new /\
    Forall (fun l => (log_loss l = NaN \/ exists x, log_loss l = Num x /\ 0 <= x) /\
              log_correct l = None) new.
Proof.
  revert w; change (prints_only (fun l =>
              (log_loss l = NaN \/ exists x, log_loss l = Num x /\ 0 <= x) /\
              log_correct l = None) (FusionRegressor.fit env L lr wd ep kind li)).
  unfold FusionRegressor.fit, train.
  do 7 quiet_only.
  apply prints_only_for_range; intro epoch.
  apply prints_only_for_batches; intros; apply reg_train_batch_lines.
Qed.

(** ** Broadcasting in the averaging loop *)

(** The loop succeeds exactly when every estimator's output broadcasts to
    the accumulator's shape. *)
Lemma avg_loop_ok_iff e X ests acc :
  (exists T, avg_loop e X ests acc = inr T) <->
  (forall est, In est ests ->
     bcast_to (rows (est_apply est (training e) X)) (rows acc) = true /\
     bcast_to (cols (est_apply est (training e) X)) (cols acc) = true).
Proof.
  revert acc; induction ests as [|est ests IH]; intro acc; simpl.
  - split; [intros _ est []|intros _; exists acc; reflexivity].
  - unfold iadd; simpl.
    destruct (bcast_to (rows (est_apply est (training e) X)) (rows acc) &&
              bcast_to (cols (est_apply est (training e) X)) (cols acc)) eqn:Hb.
    + apply andb_true_iff in Hb; rewrite IH; simpl.
      split.
      * intros H est' [<- | Hin]; [exact Hb | apply H, Hin].
      * intros H est' Hin; apply H; right; exact Hin.
    + split; [intros [T HT]; discriminate|].
      intro H; destruct (H est (or_introl eq_refl)) as [H1 H2].
      rewrite H1, H2 in Hb; discriminate.
Qed.

(** Each estimator's output, broadcast and divided by [n_estimators], is
    added to every entry of the accumulator. *)
Lemma avg_loop_value e X ests acc T :
  avg_loop e X ests acc = inr T ->
  rows T = rows acc /\ cols T = cols acc /\
  forall i j, entry T i j = entry acc i j +
    sumR (map (fun est => entry (est_apply est (training e) X)
                                (bidx (rows (est_apply est (training e) X)) i)
                                (bidx (cols (est_apply est (training e) X)) j)
                          / INR (n_estimators e)) ests).
Proof.
  revert acc; induction ests as [|est ests IH]; intros acc H; simpl in H.
  - injection H as <-; repeat split; intros; simpl; ring.
  - unfold iadd in H; destruct (_ && _); [|discriminate].
    destruct (IH _ H) as (Hr & Hc & He); simpl in Hr, Hc.
    repeat split; [exact Hr | exact Hc|].
    intros i j; rewrite He; simpl; ring.
Qed.

Lemma sum_upto_const c n : sum_upto (fun _ => c) n = INR n * c.
Proof.
  induction n as [|n IH]; simpl sum_upto; [simpl; ring|].
  rewrite IH, S_INR; ring.
Qed.

(** ** Test batches in another order *)

Section FoldPerm.
Context {T A C : Type} (body : A -> Tensor -> T -> M A)
        (res : World -> Tensor -> T -> PyError + C) (op : A -> C -> A)
        (kind : World -> PyError).
Hypothesis Hstep : forall acc d t w,
  body acc d t w = (match res w d t with inl err => inl err | inr c => inr (op acc c) end, w).
Hypothesis Hcomm : forall a x y, op (op a x) y = op (op a y) x.
Hypothesis Herr : forall w d t err, res w d t = inl err -> err = kind w.

Lemma fold_step acc d t bs w :
  fold_batches body acc ((d, t) :: bs) w =
  match res w d t with
  | inl err => (inl err, w)
  | inr c => fold_batches body (op acc c) bs w
  end.
Proof. simpl; unfold bind; rewrite Hstep; destruct (res w d t); reflexivity. Qed.

(** An accumulation that every batch either extends commutatively or stops
    with the same exception does not depend on the order of the batches. *)
Lemma fold_perm bs bs' :
  Permutation bs bs' -> forall acc w, fold_batches body acc bs w = fold_batches body acc bs' w.
Proof.
  induction 1 as [| [d t] l l' _ IH | [d t] [d' t'] l | l l' l'' _ IH1 _ IH2]; intros acc w.
  - reflexivity.
  - rewrite !fold_step; destruct (res w d t); [reflexivity | apply IH].
  - rewrite !fold_step.
    destruct (res w d t) as [e1|c1] eqn:E1, (res w d' t') as [e2|c2] eqn:E2; cbv beta iota;
      rewrite ?fold_step, ?E1, ?E2; cbv beta iota.
    + rewrite (Herr _ _ _ _ E1), (Herr _ _ _ _ E2); reflexivity.
    + reflexivity.
    + reflexivity.
    + rewrite Hcomm; reflexivity.
  - rewrite IH1, IH2; reflexivity.
Qed.

End FoldPerm.

Lemma cls_batch_result_error w d t err :
  cls_batch_result w d t = inl err -> err = batch_error (ens w).
Proof.
  unfold cls_batch_result, batch_error, sum_bind, FusionClassifier.forward,
    FusionClassifier._forward.
  destruct (n_outputs (ens w)) as [n|]; [|intro H; injection H as <-; reflexivity].
  destruct (avg_loop (ens w) d (estimators_ (ens w)) (zeros (rows d) n)) as [e1|o] eqn:E.
  - intro H; injection H as <-; exact (avg_loop_error _ _ _ _ _ E).
  - destruct (argmax_rows (softmax_rows o)) as [e2|p] eqn:Ep.
    + intro H; injection H as <-; exact (argmax_rows_error _ _ Ep).
    + apply count_eq_error.
Qed.

Lemma reg_predict_batch_step acc d t w :
  FusionRegressor.predict_batch acc d t w =
  (match reg_batch_result w d t with inl err => inl err | inr c => inr (fadd acc c) end, w).
Proof.
  unfold FusionRegressor.predict_batch, reg_batch_result, bind, get_ens, lift, ret, sum_bind.
  destruct (FusionRegressor.forward (ens w) d) as [|o]; [reflexivity|].
  destruct (mse_loss o t); reflexivity.
Qed.

Lemma reg_batch_result_error w d t err :
  reg_batch_result w d t = inl err -> err = batch_error (ens w).
Proof.
  unfold reg_batch_result, batch_error, sum_bind, FusionRegressor.forward.
  destruct (n_outputs (ens w)) as [n|]; [|intro H; injection H as <-; reflexivity].
  destruct (avg_loop (ens w) d (estimators_ (ens w)) (zeros (rows d) n)) as [e1|o] eqn:E.
  - intro H; injection H as <-; exact (avg_loop_error _ _ _ _ _ E).
  - apply mse_loss_error.
Qed.

(** X5. When [n_outputs] is [n] and [estimators_] is empty (an ensemble of
    [n_estimators = 0] after [fit]), the regressor's [forward] returns the
    [batch_size x n] zero tensor and the classifier's [forward] the uniform
    distribution [1/n] in every row. *)
Theorem forward_without_estimators e X n :
  n_outputs e = Some n -> estimators_ e = [] ->
  FusionRegressor.forward e X = inr (zeros (rows X) n) /\
  exists P, FusionClassifier.forward e X = inr P /\ rows P = rows X /\ cols P = n /\
    forall i j, (j < n)%nat -> entry P i j = / INR n.
Proof.
  intros Hn He.
  unfold FusionRegressor.forward, FusionClassifier.forward, FusionClassifier._forward.
  rewrite Hn, He; simpl.
  split; [reflexivity|].
  eexists; split; [reflexivity|]; simpl; split; [reflexivity|]; split; [reflexivity|].
  intros i j Hj.
  rewrite sum_upto_const, exp_0.
  assert (0 < INR n) by (apply lt_0_INR; lia).
  field; lra.
Qed.

Lemma forward_without_estimators_witness :
  n_outputs (mkEnsemble 0 (Some 2%nat) [] "cpu" false) = Some 2%nat /\
  estimators_ (mkEnsemble 0 (Some 2%nat) [] "cpu" false) = [] /\
  FusionRegressor.forward (mkEnsemble 0 (Some 2%nat) [] "cpu" false) (zeros 3 4)
    = inr (zeros 3 2) /\
  exists P, FusionClassifier.forward (mkEnsemble 0 (Some 2%nat) [] "cpu" false) (zeros 3 4)
              = inr P /\ rows P = 3%nat /\ cols P = 2%nat /\
    forall i j, (j < 2)%nat -> entry P i j = / 2.
Proof.
  destruct (forward_without_estimators (mkEnsemble 0 (Some 2%nat) [] "cpu" false) (zeros 3 4) 2
              eq_refl eq_refl) as [H1 (P & H2 & H3 & H4 & H5)].
  split; [reflexivity|]; split; [reflexivity|]; split; [exact H1|].
  exists P; split; [exact H2|]; split; [exact H3|]; split; [exact H4|].
  intros i j Hj; rewrite H5 by exact Hj; simpl; f_equal; ring.
Defined.

(** X6. When [n_outputs] is [n], the averaged forward pass (the
    classifier's [_forward], the regressor's [forward]) succeeds exactly
    when every estimator's output broadcasts to [(batch_size, n)] (each
    dimension equal or 1), and otherwise raises a shape error. On success
    its entry [(i, j)] is the sum over all held estimators of their output
    at the broadcast position, divided by [n_estimators], whatever the
    number of estimators held. *)
Theorem forward_broadcasts_estimator_outputs e X n :
  n_outputs e = Some n ->
  FusionClassifier._forward e X = FusionRegressor.forward e X /\
  ((exists T, FusionRegressor.forward e X = inr T) <->
   (forall est, In est (estimators_ e) ->
      bcast_to (rows (est_apply est (training e) X)) (rows X) = true /\
      bcast_to (cols (est_apply est (training e) X)) n = true)) /\
  (forall err, FusionRegressor.forward e X = inl err -> err = ShapeError) /\
  (forall T, FusionRegressor.forward e X = inr T ->
     rows T = rows X /\ cols T = n /\
     forall i j, entry T i j =
       sumR (map (fun est => entry (est_apply est (training e) X)
                                   (bidx (rows (est_apply est (training e) X)) i)
                                   (bidx (cols (est_apply est (training e) X)) j)
                             / INR (n_estimators e)) (estimators_ e))).
Proof.
  intro Hn; unfold FusionRegressor.forward, FusionClassifier._forward; rewrite Hn.
  split; [reflexivity|].
  split; [apply (avg_loop_ok_iff e X (estimators_ e) (zeros (rows X) n))|].
  split; [apply avg_loop_error|].
  intros T HT; destruct (avg_loop_value _ _ _ _ _ HT) as (Hr & Hc & He).
  split; [exact Hr|]; split; [exact Hc|].
  intros i j; rewrite He; simpl; ring.
Qed.

Lemma forward_broadcasts_estimator_outputs_witness :
  n_outputs demo_ensemble = Some 2%nat /\
  FusionClassifier._forward demo_ensemble (zeros 4 5) = FusionRegressor.forward demo_ensemble (zeros 4 5) /\
  ((exists T, FusionRegressor.forward demo_ensemble (zeros 4 5) = inr T) <->
   (forall est, In est (estimators_ demo_ensemble) ->
      bcast_to (rows (est_apply est (training demo_ensemble) (zeros 4 5))) 4 = true /\
      bcast_to (cols (est_apply est (training demo_ensemble) (zeros 4 5))) 2 = true)) /\
  (forall err, FusionRegressor.forward demo_ensemble (zeros 4 5) = inl err -> err = ShapeError) /\
  (forall T, FusionRegressor.forward demo_ensemble (zeros 4 5) = inr T ->
     rows T = 4%nat /\ cols T = 2%nat /\
     forall i j, entry T i j =
       sumR (map (fun est => entry (est_apply est (training demo_ensemble) (zeros 4 5))
                     (bidx (rows (est_apply est (training demo_ensemble) (zeros 4 5))) i)
                     (bidx (cols (est_apply est (training demo_ensemble) (zeros 4 5))) j)
                   / INR (n_estimators demo_ensemble)) (estimators_ demo_ensemble))).
Proof.
  split; [reflexivity|].
  exact (forward_broadcasts_estimator_outputs demo_ensemble (zeros 4 5) 2 eq_refl).
Defined.

(** X7. While [n_outputs] is not set (before the first [fit] reaches it),
    both [forward] methods raise [AttributeError], and so does [predict] of
    either ensemble on a loader that yields a batch. *)
Theorem unfitted_ensemble_raises_attribute_error w X (L : Loader (list nat)) (Lr : Loader Tensor) :
  n_outputs (ens w) = None ->
  FusionClassifier.forward (ens w) X = inl AttributeError /\
  FusionRegressor.forward (ens w) X = inl AttributeError /\
  (batches L <> [] -> fst (FusionClassifier.predict L w) = inl AttributeError) /\
  (batches Lr <> [] -> fst (FusionRegressor.predict Lr w) = inl AttributeError).
Proof.
  destruct w as [[N no ests dev tr] mk out]; simpl; intros ->.
  split; [reflexivity|]; split; [reflexivity|].
  split; intro Hne.
  - destruct L as [[|[d t] bs] len]; [contradiction Hne; reflexivity|]; reflexivity.
  - destruct Lr as [[|[d t] bs] len]; [contradiction Hne; reflexivity|]; reflexivity.
Qed.

Lemma unfitted_ensemble_raises_attribute_error_witness :
  n_outputs (ens demo_world) = None /\
  FusionClassifier.forward (ens demo_world) (zeros 1 1) = inl AttributeError /\
  FusionRegressor.forward (ens demo_world) (zeros 1 1) = inl AttributeError /\
  (batches demo_cls_loader <> [] ->
   fst (FusionClassifier.predict demo_cls_loader demo_world) = inl AttributeError) /\
  (batches demo_reg_loader <> [] ->
   fst (FusionRegressor.predict demo_reg_loader demo_world) = inl AttributeError).
Proof.
  split; [reflexivity|].
  exact (unfitted_ensemble_raises_attribute_error demo_world (zeros 1 1)
           demo_cls_loader demo_reg_loader eq_refl).
Defined.

Lemma bdim_le a b n : bdim a b = Some n -> (n <= Nat.max a b)%nat.
Proof.
  unfold bdim.
  destruct (Nat.eqb a b); [intro H; injection H as <-; lia|].
  destruct (Nat.eqb a 1); [intro H; injection H as <-; lia|].
  destruct (Nat.eqb b 1); [intro H; injection H as <-; lia | discriminate].
Qed.

(** A test batch matches at most as many examples as its broadcast length. *)
Lemma cls_batch_result_le w d t c :
  cls_batch_result w d t = inr c -> (c <= Nat.max (rows d) (length t))%nat.
Proof.
  unfold cls_batch_result, sum_bind.
  destruct (FusionClassifier.forward (ens w) d) as [|o] eqn:Ho; [discriminate|].
  destruct (argmax_rows o) as [|p] eqn:Hp; [discriminate|].
  unfold count_eq; destruct (bdim (length p) (length t)) as [n|] eqn:Hn; [|discriminate].
  intro E; injection E as <-.
  apply bdim_le in Hn.
  rewrite (argmax_rows_length _ _ Hp), (cls_forward_rows _ _ _ Ho) in Hn.
  pose proof (filter_length_le
    (fun i => Nat.eqb (nth (bidx (length p) i) p 0%nat) (nth (bidx (length t) i) t 0%nat))
    (seq 0 n)) as Hf.
  rewrite length_seq in Hf; lia.
Qed.

(** While the count stays below [2^24], the float32 loop of [predict] is
    the exact one. *)
Lemma cls_fold_exact bs acc w :
  (0 <= acc)%Z ->
  (acc + Z.of_nat (list_sum (map (fun '(d, t) => Nat.max (rows d) (length t)) bs)) <= 2 ^ 24)%Z ->
  fold_batches FusionClassifier.predict_batch acc bs w = fold_batches cls_exact_batch acc bs w.
Proof.
  revert acc; induction bs as [|[d t] bs IH]; intros acc H0 Hb; [reflexivity|].
  cbn [fold_batches]; unfold bind; rewrite cls_predict_batch_step; unfold cls_exact_batch.
  destruct (cls_batch_result w d t) as [err|c] eqn:E; [reflexivity|].
  apply cls_batch_result_le in E; simpl in Hb.
  unfold fl32_add; rewrite (fl32_int_small (Z.of_nat c)) by lia.
  rewrite (fl32_int_small (acc + Z.of_nat c)) by lia.
  apply IH; lia.
Qed.

(** X8. When the test batches hold at most [2^24] examples in total
    (counting for each batch the larger of its number of rows and of
    target labels), so that the float32 count is exact,
    [FusionClassifier.predict] does not depend on the order in which the
    loader yields its batches: a loader yielding the same batches in
    another order, over a dataset of the same length, gives the same
    accuracy, or raises the same exception, and leaves the same state. *)
Theorem cls_predict_batch_order_irrelevant (L L' : Loader (list nat)) w :
  Permutation (batches L) (batches L') -> dataset_len L = dataset_len L' ->
  (Z.of_nat (list_sum (map (fun '(d, t) => Nat.max (rows d) (length t)) (batches L)))
     <= 2 ^ 24)%Z ->
  FusionClassifier.predict L w = FusionClassifier.predict L' w.
Proof.
  intros Hp Hlen Hb; unfold FusionClassifier.predict; rewrite !bind_eval.
  assert (Hb' : Z.of_nat (list_sum (map (fun '(d, t) => Nat.max (rows d) (length t)) (batches L')))
                = Z.of_nat (list_sum (map (fun '(d, t) => Nat.max (rows d) (length t)) (batches L)))).
  { f_equal; symmetry; apply Permutation_list_sum, Permutation_map, Hp. }
  unfold bind.
  rewrite (cls_fold_exact (batches L)), (cls_fold_exact (batches L')) by lia.
  rewrite (fold_perm cls_exact_batch cls_batch_result (fun a c => (a + Z.of_nat c)%Z)
             (fun w => batch_error (ens w)) (fun _ _ _ _ => eq_refl)
             ltac:(intros; cbv beta; lia) cls_batch_result_error _ _ Hp).
  rewrite Hlen; reflexivity.
Qed.

Lemma cls_predict_batch_order_irrelevant_witness :
  Permutation [(zeros 1 1, [0%nat]); (zeros 2 1, [0%nat; 1%nat])]
              [(zeros 2 1, [0%nat; 1%nat]); (zeros 1 1, [0%nat])] /\
  dataset_len (mkLoader [(zeros 1 1, [0%nat]); (zeros 2 1, [0%nat; 1%nat])] 3) =
  dataset_len (mkLoader [(zeros 2 1, [0%nat; 1%nat]); (zeros 1 1, [0%nat])] 3) /\
  (Z.of_nat (list_sum (map (fun '(d, t) => Nat.max (rows d) (length t))
     (batches (mkLoader [(zeros 1 1, [0%nat]); (zeros 2 1, [0%nat; 1%nat])] 3)))) <= 2 ^ 24)%Z /\
  FusionClassifier.predict (mkLoader [(zeros 1 1, [0%nat]); (zeros 2 1, [0%nat; 1%nat])] 3)
    (mkWorld demo_cls_one 0 []) =
  FusionClassifier.predict (mkLoader [(zeros 2 1, [0%nat; 1%nat]); (zeros 1 1, [0%nat])] 3)
    (mkWorld demo_cls_one 0 []).
Proof.
  split; [apply perm_swap|]; split; [reflexivity|]; split; [simpl; lia|].
  apply cls_predict_batch_order_irrelevant; [apply perm_swap | reflexivity | simpl; lia].
Defined.

(** X9. Over exact (real) arithmetic, with nan propagated,
    [FusionRegressor.predict] does not depend on the order in which the
    loader yields its batches: the same batches in another order give the
    same result, or raise the same exception, and leave the same state. *)
Theorem reg_predict_batch_order_irrelevant (L L' : Loader Tensor) w :
  Permutation (batches L) (batches L') ->
  FusionRegressor.predict L w = FusionRegressor.predict L' w.
Proof.
  intros Hp; unfold FusionRegressor.predict; rewrite !bind_eval.
  unfold bind.
  rewrite (fold_perm FusionRegressor.predict_batch reg_batch_result fadd
             (fun w => batch_error (ens w)) reg_predict_batch_step
             ltac:(intros [a|] [x|] [y|]; simpl; try reflexivity; f_equal; ring)
             reg_batch_result_error _ _ Hp).
  rewrite (Permutation_length Hp); reflexivity.
Qed.

Lemma reg_predict_batch_order_irrelevant_witness :
  Permutation [(zeros 1 1, zeros 1 1); (zeros 2 1, zeros 2 1)]
              [(zeros 2 1, zeros 2 1); (zeros 1 1, zeros 1 1)] /\
  FusionRegressor.predict (mkLoader [(zeros 1 1, zeros 1 1); (zeros 2 1, zeros 2 1)] 3)
    (mkWorld demo_reg_ensemble 0 []) =
  FusionRegressor.predict (mkLoader [(zeros 2 1, zeros 2 1); (zeros 1 1, zeros 1 1)] 3)
    (mkWorld demo_reg_ensemble 0 []).
Proof.
  split; [apply perm_swap|].
  apply reg_predict_batch_order_irrelevant; apply perm_swap.
Defined.
